(** * Showdex: the hydration codec, the matchup adapter and the preset matcher

    A shallow embedding of

    - [src/utils/hydro/dehydrators.ts]      (module [Hydro]),
    - [src/utils/calc/createSmogonPokemon.ts] (module [Calc], [createSmogonPokemon]),
    - [appliedPreset]                        (module [Calc], [appliedPreset]),
    - [buildMoveOptions]                     (module [Moves]),

    together with the properties of these functions.

    Conventions of the embedding.

    - JavaScript numbers are integers ([Z]); fractional values, [NaN] and
      the infinities are not represented.
    - [null] and [undefined] are kept apart in [Js.JsValue]; in the typed
      records of [Calc] an absent, [null] or [undefined] field is [None]
      (every test the source makes on such a field, [??], [?.], [||], [!],
      treats the three alike).
    - A thrown [TypeError] is the [Throw] completion. *)

From Stdlib Require Import ZArith String Ascii List Bool Lia DecimalString DecimalZ
  Permutation Sorted.
From stdpp Require Import base option list strings gmap.

Set Warnings "-register-all".

Open Scope Z_scope.
Open Scope string_scope.

(** ** A fragment of JavaScript *)

Module Js.

(** Outcome of evaluating a piece of code that can throw. *)
Inductive Completion (A : Type) : Type :=
| Return (a : A)
| Throw.
Arguments Return {A} a.
Arguments Throw {A}.

#[export] Instance completion_ret : MRet Completion := fun A a => Return a.

#[export] Instance completion_bind : MBind Completion := fun A B k c =>
  match c with
  | Return a => k a
  | Throw => Throw
  end.

(** Plain data values.  An object is the list of its own enumerable
    string-keyed properties in enumeration order; its keys are distinct.
    Method look-ups ([toString], [map]) resolve to the built-in
    prototypes: objects do not carry own properties of those names. *)
Inductive JsValue : Type :=
| JUndefined
| JNull
| JBool (b : bool)
| JNum (n : Z)
| JStr (s : string)
| JArr (l : list JsValue)
| JObj (kvs : list (string * JsValue)).

(** [!!v] *)
Definition truthy (v : JsValue) : bool :=
  match v with
  | JUndefined | JNull => false
  | JBool b => b
  | JNum n => negb (n =? 0)%Z
  | JStr s => negb (String.eqb s "")
  | JArr _ | JObj _ => true
  end.

(** [Number.prototype.toString] on an integer: its decimal digits
    (JavaScript turns to exponent notation from 10^21 on, beyond the
    numbers a combatant holds). *)
Definition numberToString (n : Z) : string :=
  NilZero.string_of_int (Z.to_int n).

(** The canonical text of an array index. *)
Definition indexToString (i : nat) : string :=
  NilZero.string_of_uint (Nat.to_uint i).

(** [Array.prototype.join] on an array whose elements are already strings. *)
Definition join (sep : string) (l : list string) : string :=
  String.concat sep l.

(** [v.toString()] where [v?.toString?.()] is evaluated: [None] when the
    chain short-circuits ([v] is [null] or [undefined]).  An array prints
    its elements separated by commas, with [null] and [undefined] elements
    printed as the empty string. *)
Fixpoint toString (v : JsValue) : option string :=
  match v with
  | JUndefined | JNull => None
  | JBool b => Some (if b then "true" else "false")
  | JNum n => Some (numberToString n)
  | JStr s => Some s
  | JArr l => Some (join "," (map (fun x => default "" (toString x)) l))
  | JObj _ => Some "[object Object]"
  end.

(** [Array.isArray(v)] *)
Definition isArray (v : JsValue) : bool :=
  match v with
  | JArr _ => true
  | _ => false
  end.

Fixpoint assoc (k : string) (kvs : list (string * JsValue)) : JsValue :=
  match kvs with
  | [] => JUndefined
  | (k', v) :: r => if String.eqb k k' then v else assoc k r
  end.

Definition charAt (s : string) (i : nat) : JsValue :=
  match String.get i s with
  | Some c => JStr (String c EmptyString)
  | None => JUndefined
  end.

(** The index an own-property key of an array or string of size [n]
    denotes, if any. *)
Definition keyIndex (n : nat) (k : string) : option nat :=
  List.find (fun i => String.eqb (indexToString i) k) (seq 0 n).

(** [v?.[k]]: reading a data property; [undefined] on [null] and
    [undefined] (optional chaining) and on a missing property. *)
Definition getProp (v : JsValue) (k : string) : JsValue :=
  match v with
  | JObj kvs => assoc k kvs
  | JArr l =>
      match keyIndex (List.length l) k with
      | Some i => nth i l JUndefined
      | None => JUndefined
      end
  | JStr s =>
      match keyIndex (String.length s) k with
      | Some i => charAt s i
      | None => JUndefined
      end
  | _ => JUndefined
  end.

(** [Object.entries(v)] for a value that is not [null] or [undefined]. *)
Definition entries (v : JsValue) : list (string * JsValue) :=
  match v with
  | JObj kvs => kvs
  | JArr l => map (fun i => (indexToString i, nth i l JUndefined)) (seq 0 (List.length l))
  | JStr s => map (fun i => (indexToString i, charAt s i)) (seq 0 (String.length s))
  | _ => []
  end.

(** [Object.keys(v)] *)
Definition keys (v : JsValue) : list string := map fst (entries v).

(** [v || {}] *)
Definition orEmptyObject (v : JsValue) : JsValue :=
  if truthy v then v else JObj [].

(** [v == null] *)
Definition isNullish (v : JsValue) : bool :=
  match v with
  | JUndefined | JNull => true
  | _ => false
  end.

(** A value a [Showdown.StatsTable] entry can hold: a number, or nothing. *)
Definition numberOrNullish (v : JsValue) : bool :=
  match v with
  | JUndefined | JNull | JNum _ => true
  | _ => false
  end.

(** Number of occurrences of a character. *)
Fixpoint countChar (c : ascii) (s : string) : nat :=
  match s with
  | EmptyString => 0%nat
  | String c' r => ((if Ascii.eqb c c' then 1 else 0) + countChar c r)%nat
  end.

Fixpoint insertKey (k : string) (l : list string) : list string :=
  match l with
  | [] => [k]
  | x :: r => if String.leb k x then k :: l else x :: insertKey k r
  end.

(** [Array.prototype.sort] without a comparator, on strings: ascending
    code-unit order. *)
Definition sort (l : list string) : list string := foldr insertKey [] l.

End Js.

(** ** The hydration codec: [src/utils/hydro/dehydrators.ts] *)

Module Hydro.
Import Js.

(** [(value ? 'y' : 'n')] *)
Definition dehydrateBoolean (value : JsValue) : string :=
  if truthy value then "y" else "n".

Definition isDelimiter (c : ascii) : bool :=
  (Ascii.eqb c ",") || (Ascii.eqb c ";") || (Ascii.eqb c "|").

(** [s.replace(/(?:,|;|\|)/g, '')] *)
Fixpoint stripDelimiters (s : string) : string :=
  match s with
  | EmptyString => EmptyString
  | String c r =>
      if isDelimiter c then stripDelimiters r else String c (stripDelimiters r)
  end.

(** [s || '?'] *)
Definition orPlaceholder (s : string) : string :=
  match s with
  | EmptyString => "?"
  | _ => s
  end.

Definition dehydrateValue (value : JsValue) : string :=
  match value with
  | JBool _ => dehydrateBoolean value
  | _ =>
      match toString value with
      | Some s => orPlaceholder (stripDelimiters s)
      | None => "?"
      end
  end.

(** [value?.map?.((v) => dehydrateValue(v)).join(delimiter)].  A value
    that is [null], [undefined] or has no [map] method ends the optional
    chain, and the result is [undefined] ([None]). *)
Definition dehydrateArray (value : JsValue) (delimiter : string) : option string :=
  match value with
  | JArr l => Some (join delimiter (map dehydrateValue l))
  | _ => None
  end.

Definition statKeys : list string := ["hp"; "atk"; "def"; "spa"; "spd"; "spe"].

Definition dehydrateStatsTable (value : JsValue) (delimiter : string) : string :=
  join delimiter (map dehydrateValue (map (getProp value) statKeys)).

Definition dehydratePlayerSide (value : JsValue) (delimiter : string) : string :=
  join delimiter
    (map (fun e : string * JsValue => e.1 ++ "=" ++ dehydrateValue e.2)
       (List.filter
          (fun e : string * JsValue =>
             negb (String.eqb e.1 "") && negb (String.eqb e.1 "conditions") && truthy e.2)
          (entries (orEmptyObject value)))).

(** An [undefined] element of the mapped array is printed by [join] as
    the empty string. *)
Definition dehydratePerSide (value : JsValue) (delimiter arrayDelimiter : string) : string :=
  join delimiter
    (map (fun key =>
            if isArray (getProp value key)
            then default "" (dehydrateArray (getProp value key) arrayDelimiter)
            else dehydrateValue (getProp value key))
       (sort (keys (orEmptyObject value)))).

End Hydro.


(** ** The matchup adapter and the preset matcher *)

Module Calc.
Import Js.

(** A [Showdown.StatsTable] object: its own keys, each holding a number
    or a nullish value. *)
Abbreviation StatsTable := (gmap string (option Z)).

(** [t?.[k]] on a table that may itself be absent. *)
Definition stat (t : option StatsTable) (k : string) : option Z :=
  t ≫= fun m => mjoin (m !! k).

(** [a ?? b] *)
Definition nullish {A} (a b : option A) : option A :=
  match a with
  | Some _ => a
  | None => b
  end.

(** [!!s] on a string that may be absent. *)
Definition truthyStr (s : option string) : bool :=
  match s with
  | Some s => negb (String.eqb s "")
  | None => false
  end.

(** [a || b] on strings. *)
Definition orElse (a b : option string) : option string :=
  if truthyStr a then a else b.

(** [a === b] on strings that may be absent. *)
Definition sameStr (a b : option string) : bool := bool_decide (a = b).

(** [l?.length] as a condition. *)
Definition nonEmptyList {A} (l : option (list A)) : bool :=
  match l with
  | Some (_ :: _) => true
  | _ => false
  end.

(** [s.endsWith(suffix)] *)
Definition endsWith (s suffix : string) : bool :=
  (String.length suffix <=? String.length s)%nat
  && String.eqb
       (substring (String.length s - String.length suffix) (String.length suffix) s)
       suffix.

(** [id?.endsWith('ofruin')] as a condition. *)
Definition isRuinId (id : option string) : bool :=
  match id with
  | Some s => endsWith s "ofruin"
  | None => false
  end.

(** [l.includes(id)] for a list of string literals. *)
Definition includesId (l : list string) (id : option string) : bool :=
  match id with
  | Some s => bool_decide (s ∈ l)
  | None => false
  end.

(** The first argument of [appliedPreset] and the argument of
    [detectLegacyGen]: a generation number or a format name. *)
Inductive FormatArg : Type :=
| FmtAbsent
| FmtGen (gen : Z)
| FmtStr (format : string).

(** What the two functions import from modules that are not part of the
    sources at hand ([@showdex/utils/dex], [@showdex/utils/core],
    [@showdex/consts/dex]).  [detectGenFromFormat] answers [null] ([None])
    for a format it does not recognise. *)
Class Imports : Type := {
  GenDex : Type;
  getGenDexForFormat : string -> option GenDex;
  detectGenFromFormat : string -> option Z;
  detectLegacyGen : FormatArg -> bool;
  formatId : option string -> option string;
  nonEmptyObject : forall {A : Type}, option (gmap string A) -> bool;
  PokemonToggleAbilities : list string;
}.

(** [CalcdexPokemon], restricted to the fields the two functions read. *)
Module Pokemon.
Record t : Type := {
  calcdexId : option string;
  speciesForme : option string;
  transformedForme : option string;
  dirtyItem : option string;
  item : option string;
  prevItem : option string;
  dirtyStatus : option string;
  status : option string;
  dirtyAbility : option string;
  ability : option string;
  abilityToggleable : bool;
  abilityToggled : bool;
  nature : option string;
  moves : option (list string);
  moveOverrides : option (gmap string (gmap string Z));
  ivs : option StatsTable;
  evs : option StatsTable;
  boosts : option StatsTable;
  dirtyBoosts : option StatsTable;
  baseStats : option StatsTable;
  dirtyBaseStats : option StatsTable;
  transformedBaseStats : option StatsTable;
  types : option (list string);
  dirtyTypes : option (list string);
  faintCounter : option Z;
  dirtyFaintCounter : option Z;
  volatiles : option (gmap string (list string));
}.
End Pokemon.

(** [CalcdexPokemonPreset], restricted to the fields [appliedPreset] reads. *)
Module Preset.
Record t : Type := {
  source : option string;
  ability : option string;
  item : option string;
  nature : option string;
  moves : option (list string);
  ivs : option StatsTable;
  evs : option StatsTable;
}.
End Preset.

(** [CalcdexBattleField], restricted to [gameType]. *)
Module Field.
Record t : Type := {
  gameType : option string;
}.
End Field.

(** The six entries of the [ivs] and [evs] object literals. *)
Module Stats.
Record t : Type := {
  hp : Z;
  atk : Z;
  def : Z;
  spa : Z;
  spd : Z;
  spe : Z;
}.
End Stats.

(** The five entries of the [boosts] object literal. *)
Module Boosts.
Record t : Type := {
  atk : Z;
  def : Z;
  spa : Z;
  spd : Z;
  spe : Z;
}.
End Boosts.

(** The [options] argument handed to the engine's [Pokemon] constructor.
    [alliesFainted] is [None] where the source's [&&] yields [false].
    The entries [curHP], [level], [gender], [teraType], [toxicCounter],
    [isDynamaxed] and [boostedStat] are left out: they are copied from the
    combatant or derived from its hit points, and nothing below depends
    on them. *)
Module Options.
Record t : Type := {
  status : option string;
  alliesFainted : option Z;
  isSaltCure : bool;
  ability : option string;
  abilityOn : bool;
  item : option string;
  nature : option string;
  moves : option (list string);
  ivs : Stats.t;
  evs : Stats.t;
  boosts : Boosts.t;
  baseStats : StatsTable;
  types : list (option string);
}.
End Options.

Section Functions.
Context `{Imports}.

(** [(gen > 1 && (pokemon.dirtyItem ?? pokemon.item)) || null] *)
Definition resolveItem (gen : Z) (pokemon : Pokemon.t) : option string :=
  if (1 <? gen)%Z
  then orElse (nullish (Pokemon.dirtyItem pokemon) (Pokemon.item pokemon)) None
  else None.

Definition resolveStatus (pokemon : Pokemon.t) : option string :=
  if truthyStr (Pokemon.dirtyStatus pokemon)
     && negb (sameStr (Pokemon.dirtyStatus pokemon) (Some "???"))
  then
    if sameStr (Pokemon.dirtyStatus pokemon) (Some "ok")
    then None
    else Pokemon.dirtyStatus pokemon
  else
    if sameStr (Pokemon.status pokemon) (Some "???")
    then None
    else Pokemon.status pokemon.

(** [(!legacy && (pokemon.dirtyAbility ?? pokemon.ability)) || null] *)
Definition resolveAbility (legacy : bool) (pokemon : Pokemon.t) : option string :=
  if legacy
  then None
  else orElse (nullish (Pokemon.dirtyAbility pokemon) (Pokemon.ability pokemon)) None.

(** [field?.gameType === 'Doubles'] *)
Definition isDoubles (field : option Field.t) : bool :=
  sameStr (field ≫= Field.gameType) (Some "Doubles").

(** One step of the [map] over [PokemonToggleAbilities]:
    [formatId(a).endsWith('ofruin') && !doubles ? null : formatId(a)].
    The call of [endsWith] is not guarded. *)
Definition toggleId (doubles : bool) (a : string) : Completion (option string) :=
  match formatId (Some a) with
  | None => Throw
  | Some id => Return (if endsWith id "ofruin" && negb doubles then None else Some id)
  end.

Definition pseudoToggleAbility (doubles : bool) (abilityId : option string) : Completion bool :=
  if truthyStr abilityId
  then
    ids ← mapM (toggleId doubles) PokemonToggleAbilities;
    Return (bool_decide (abilityId ∈ List.filter truthyStr ids))
  else Return false.

(** The [alliesFainted] entry. *)
Definition resolveAlliesFainted (pokemon : Pokemon.t) (moveName : option string) : option Z :=
  if negb (truthyStr moveName)
     || negb (nonEmptyObject
                (Pokemon.moveOverrides pokemon ≫= fun o => moveName ≫= fun m => o !! m))
  then
    Some (default (default 0 (Pokemon.faintCounter pokemon))
            (Pokemon.dirtyFaintCounter pokemon))
  else None.

Definition resolveIvs (defaultIv : Z) (pokemon : Pokemon.t) : Stats.t :=
  {| Stats.hp := default defaultIv (stat (Pokemon.ivs pokemon) "hp");
     Stats.atk := default defaultIv (stat (Pokemon.ivs pokemon) "atk");
     Stats.def := default defaultIv (stat (Pokemon.ivs pokemon) "def");
     Stats.spa := default defaultIv (stat (Pokemon.ivs pokemon) "spa");
     Stats.spd := default defaultIv (stat (Pokemon.ivs pokemon) "spd");
     Stats.spe := default defaultIv (stat (Pokemon.ivs pokemon) "spe") |}.

Definition resolveEvs (defaultEv : Z) (pokemon : Pokemon.t) : Stats.t :=
  {| Stats.hp := default defaultEv (stat (Pokemon.evs pokemon) "hp");
     Stats.atk := default defaultEv (stat (Pokemon.evs pokemon) "atk");
     Stats.def := default defaultEv (stat (Pokemon.evs pokemon) "def");
     Stats.spa := default defaultEv (stat (Pokemon.evs pokemon) "spa");
     Stats.spd := default defaultEv (stat (Pokemon.evs pokemon) "spd");
     Stats.spe := default defaultEv (stat (Pokemon.evs pokemon) "spe") |}.

(** [pokemon.dirtyBoosts?.k ?? pokemon.boosts?.k ?? 0] *)
Definition resolveBoost (pokemon : Pokemon.t) (k : string) : Z :=
  default 0 (nullish (stat (Pokemon.dirtyBoosts pokemon) k) (stat (Pokemon.boosts pokemon) k)).

Definition resolveBoosts (pokemon : Pokemon.t) : Boosts.t :=
  {| Boosts.atk := resolveBoost pokemon "atk";
     Boosts.def := resolveBoost pokemon "def";
     Boosts.spa := resolveBoost pokemon "spa";
     Boosts.spd := resolveBoost pokemon "spd";
     Boosts.spe := resolveBoost pokemon "spe" |}.

(** The test of the [reduce] callback, negated:
    [typeof value === 'number' && value >= 0]. *)
Definition nonNegativeNumber (value : option Z) : bool :=
  match value with
  | Some n => (0 <=? n)%Z
  | None => false
  end.

(** [{ ...pokemon.baseStats, ...Object.entries(pokemon.dirtyBaseStats || {}).reduce(...) }] *)
Definition resolveBaseStats (pokemon : Pokemon.t) : StatsTable :=
  filter (fun e : string * option Z => Is_true (nonNegativeNumber e.2))
    (default ∅ (Pokemon.dirtyBaseStats pokemon))
  ∪ default ∅ (Pokemon.baseStats pokemon).

(** [[...(pokemon.dirtyTypes?.length ? pokemon.dirtyTypes : pokemon.types), null, null].slice(0, 2)].
    Spreading an absent [types] throws. *)
Definition resolveTypes (pokemon : Pokemon.t) : Completion (list (option string)) :=
  match
    if nonEmptyList (Pokemon.dirtyTypes pokemon)
    then Pokemon.dirtyTypes pokemon
    else Pokemon.types pokemon
  with
  | Some l => Return (take 2 (map Some l ++ [None; None]))
  | None => Throw
  end.

(** Reading one entry of the [overrides.baseStats] object. *)
Definition baseStat (m : StatsTable) (k : string) : option Z := mjoin (m !! k).

(** The gen 1 block on [overrides.baseStats]. *)
Definition coupleSpecial (m : StatsTable) : StatsTable :=
  if bool_decide (baseStat m "spd" = baseStat m "spa")
  then m
  else <["spd" := baseStat m "spa"]> m.

(** The Ruin block: whether the opponent cancels the ability [abilityId]. *)
Definition ruinCancelled (legacy : bool) (abilityId : option string)
    (opponentPokemon : option Pokemon.t) : bool :=
  if negb legacy && isRuinId abilityId
     && truthyStr (opponentPokemon ≫= Pokemon.speciesForme)
  then
    match opponentPokemon with
    | Some opponent =>
        let opponentAbilityId :=
          formatId (orElse (Pokemon.dirtyAbility opponent) (Pokemon.ability opponent)) in
        isRuinId opponentAbilityId && sameStr opponentAbilityId abilityId
    | None => false
    end
  else false.

(** The transformation block.  [baseStats.hp] on an absent [baseStats]
    throws. *)
Definition transformBaseStats (pokemon : Pokemon.t) (m : StatsTable) : Completion StatsTable :=
  if truthyStr (Pokemon.transformedForme pokemon)
  then
    match Pokemon.baseStats pokemon with
    | Some baseStats =>
        Return (<["hp" := baseStat baseStats "hp"]>
                  (default ∅ (Pokemon.transformedBaseStats pokemon)))
    | None => Throw
    end
  else Return m.

(** [nonEmptyObject(pokemon.volatiles) && 'powertrick' in pokemon.volatiles] *)
Definition powerTrickActive (pokemon : Pokemon.t) : bool :=
  nonEmptyObject (Pokemon.volatiles pokemon)
  && bool_decide (is_Some (Pokemon.volatiles pokemon ≫= fun v => v !! "powertrick")).

(** The Power Trick block. *)
Definition powerTrick (pokemon : Pokemon.t) (m : StatsTable) : StatsTable :=
  if powerTrickActive pokemon
  then <["def" := baseStat m "atk"]> (<["atk" := baseStat m "def"]> m)
  else m.

(** The result stands for [new SmogonPokemon(dex, pokemon.speciesForme, options)]:
    the engine's constructor is given the options computed here. *)
Definition createSmogonPokemon (format : string) (pokemon : option Pokemon.t)
    (moveName : option string) (opponentPokemon : option Pokemon.t)
    (field : option Field.t) : Completion (option Options.t) :=
  let dex := getGenDexForFormat format in
  let gen := detectGenFromFormat format in
  match dex, gen, pokemon with
  | Some _, Some gen, Some pokemon =>
      if (gen <? 1)%Z
         || negb (truthyStr (Pokemon.calcdexId pokemon))
         || negb (truthyStr (Pokemon.speciesForme pokemon))
      then Return None
      else
        let legacy := detectLegacyGen (FmtGen gen) in
        let defaultIv := if legacy then 30 else 31 in
        let defaultEv := if legacy then 252 else 0 in
        let item := resolveItem gen pokemon in
        let status := resolveStatus pokemon in
        let ability := resolveAbility legacy pokemon in
        let abilityId := formatId ability in
        let doubles := isDoubles field in
        pseudoToggle ← pseudoToggleAbility doubles abilityId;
        let pseudoToggled :=
          pseudoToggle && Pokemon.abilityToggleable pokemon && Pokemon.abilityToggled pokemon in
        isSaltCure ←
          match Pokemon.volatiles pokemon with
          | Some v => Return (bool_decide (is_Some (v !! "saltcure")))
          | None => Throw
          end;
        types ← resolveTypes pokemon;
        let ivs0 := resolveIvs defaultIv pokemon in
        let evs0 := resolveEvs defaultEv pokemon in
        let boosts0 := resolveBoosts pokemon in
        let baseStats0 := resolveBaseStats pokemon in
        let ivs1 :=
          if legacy
          then {| Stats.hp := Stats.hp ivs0; Stats.atk := Stats.atk ivs0;
                  Stats.def := Stats.def ivs0; Stats.spa := Stats.spa ivs0;
                  Stats.spd := Stats.spa ivs0; Stats.spe := Stats.spe ivs0 |}
          else ivs0 in
        let evs1 :=
          if (gen =? 1)%Z
          then {| Stats.hp := Stats.hp evs0; Stats.atk := Stats.atk evs0;
                  Stats.def := Stats.def evs0; Stats.spa := Stats.spa evs0;
                  Stats.spd := Stats.spa evs0; Stats.spe := Stats.spe evs0 |}
          else evs0 in
        let boosts1 :=
          if (gen =? 1)%Z
          then {| Boosts.atk := Boosts.atk boosts0; Boosts.def := Boosts.def boosts0;
                  Boosts.spa := Boosts.spa boosts0; Boosts.spd := Boosts.spa boosts0;
                  Boosts.spe := Boosts.spe boosts0 |}
          else boosts0 in
        let baseStats1 := if (gen =? 1)%Z then coupleSpecial baseStats0 else baseStats0 in
        let ability0 :=
          if pseudoToggle && negb pseudoToggled then Some "Pressure" else ability in
        let ability1 :=
          if includesId ["protean"; "libero"] abilityId && negb (Pokemon.abilityToggled pokemon)
          then Some "Pressure" else ability0 in
        let ability2 :=
          if includesId ["intrepidsword"; "download"] abilityId
          then Some "Pressure" else ability1 in
        let ability3 :=
          if ruinCancelled legacy abilityId opponentPokemon
          then Some "Pressure" else ability2 in
        baseStats2 ← transformBaseStats pokemon baseStats1;
        let baseStats3 := powerTrick pokemon baseStats2 in
        Return (Some
          {| Options.status := status;
             Options.alliesFainted := resolveAlliesFainted pokemon moveName;
             Options.isSaltCure := isSaltCure;
             Options.ability := ability3;
             Options.abilityOn := pseudoToggled;
             Options.item := item;
             Options.nature := if legacy then None else Pokemon.nature pokemon;
             Options.moves := Pokemon.moves pokemon;
             Options.ivs := ivs1;
             Options.evs := evs1;
             Options.boosts := boosts1;
             Options.baseStats := baseStats3;
             Options.types := types |})
  | _, _, _ => Return None
  end.

(** *** [appliedPreset] *)

(** [!!format] *)
Definition truthyFormat (format : FormatArg) : bool :=
  match format with
  | FmtAbsent => false
  | FmtGen gen => negb (gen =? 0)%Z
  | FmtStr s => negb (String.eqb s "")
  end.

(** [typeof format === 'string' ? detectGenFromFormat(format) : format] *)
Definition genOfFormat (format : FormatArg) : option Z :=
  match format with
  | FmtAbsent => None
  | FmtGen gen => Some gen
  | FmtStr s => detectGenFromFormat s
  end.

(** The conjunct on natures, and likewise on abilities and items:
    [!!a && !!b && a === b]. *)
Definition bothSame (a b : option string) : bool :=
  truthyStr a && truthyStr b && sameStr a b.

(** [!!pokemonMoves?.length && !!presetMoves?.length
     && presetMoves.every((move) => pokemonMoves.includes(move))] *)
Definition movesMatch (pokemonMoves presetMoves : option (list string)) : bool :=
  nonEmptyList pokemonMoves && nonEmptyList presetMoves
  && forallb (fun move => bool_decide (move ∈ default [] pokemonMoves))
       (default [] presetMoves).

(** The callback of the [every] over the combatant's IV entries. *)
Definition ivMatches (legacy : bool) (defaultIv : Z) (presetIvs : option StatsTable)
    (e : string * option Z) : bool :=
  (legacy && bool_decide (e.1 ∈ ["hp"; "spd"]))
  || bool_decide (e.2 = Some (default defaultIv (stat presetIvs e.1))).

(** [presetEvs?.[stat] || 0] *)
Definition presetEv (presetEvs : option StatsTable) (k : string) : Z :=
  default 0 (stat presetEvs k).

(** The callback of the [every] over the combatant's EV entries. *)
Definition evMatches (presetEvs : option StatsTable) (e : string * option Z) : bool :=
  bool_decide (e.2 = Some (presetEv presetEvs e.1)).

Definition appliedPreset (format : FormatArg) (pokemon : option Pokemon.t)
    (preset : option Preset.t) : bool :=
  match pokemon, preset with
  | Some pokemon, Some preset =>
      if negb (truthyFormat format)
         || negb (truthyStr (Pokemon.speciesForme pokemon))
         || negb (truthyStr (Preset.source preset))
      then false
      else
        match genOfFormat format with
        | Some gen =>
            if (gen =? 0)%Z then false
            else
              let legacy := detectLegacyGen format in
              let defaultIv := if legacy then 30 else 31 in
              let pokemonAbility :=
                orElse (Pokemon.dirtyAbility pokemon) (Pokemon.ability pokemon) in
              let pokemonItem :=
                nullish (Pokemon.dirtyItem pokemon)
                  (orElse (Pokemon.prevItem pokemon) (Pokemon.item pokemon)) in
              (legacy || bothSame (Pokemon.nature pokemon) (Preset.nature preset))
              && (legacy || bothSame pokemonAbility (Preset.ability preset))
              && ((gen <? 2)%Z || bothSame pokemonItem (Preset.item preset))
              && movesMatch (Pokemon.moves pokemon) (Preset.moves preset)
              && forallb (ivMatches legacy defaultIv (Preset.ivs preset))
                   (map_to_list (default ∅ (Pokemon.ivs pokemon)))
              && (legacy
                  || forallb (evMatches (Preset.evs preset))
                       (map_to_list (default ∅ (Pokemon.evs pokemon))))
        | None => false
        end
  | _, _ => false
  end.

(** The ability entry once every block has run, given the outcome of the
    pseudo-toggle test. *)
Definition abilitySent (legacy pseudoToggle : bool) (pokemon : Pokemon.t)
    (opponentPokemon : option Pokemon.t) : option string :=
  let abilityId := formatId (resolveAbility legacy pokemon) in
  if ruinCancelled legacy abilityId opponentPokemon then Some "Pressure"
  else if includesId ["intrepidsword"; "download"] abilityId then Some "Pressure"
  else if includesId ["protean"; "libero"] abilityId && negb (Pokemon.abilityToggled pokemon)
  then Some "Pressure"
  else if pseudoToggle
          && negb (pseudoToggle && Pokemon.abilityToggleable pokemon
                   && Pokemon.abilityToggled pokemon)
  then Some "Pressure"
  else resolveAbility legacy pokemon.

(** The base-stat table once every block has run. *)
Definition baseStatsSent (gen : Z) (pokemon : Pokemon.t) : StatsTable :=
  powerTrick pokemon
    (if truthyStr (Pokemon.transformedForme pokemon)
     then <["hp" := stat (Pokemon.baseStats pokemon) "hp"]>
            (default ∅ (Pokemon.transformedBaseStats pokemon))
     else if (gen =? 1)%Z then coupleSpecial (resolveBaseStats pokemon)
          else resolveBaseStats pokemon).

(** Inputs on which the adapter gets as far as calling the engine's
    constructor: the guard passes and no block throws. *)
Definition ready (format : string) (pokemon : Pokemon.t) : Prop :=
  is_Some (getGenDexForFormat format)
  /\ (exists gen, detectGenFromFormat format = Some gen /\ (1 <= gen)%Z)
  /\ truthyStr (Pokemon.calcdexId pokemon) = true
  /\ truthyStr (Pokemon.speciesForme pokemon) = true
  /\ Forall (fun a => is_Some (formatId (Some a))) PokemonToggleAbilities
  /\ is_Some (Pokemon.volatiles pokemon)
  /\ is_Some (if nonEmptyList (Pokemon.dirtyTypes pokemon)
              then Pokemon.dirtyTypes pokemon
              else Pokemon.types pokemon)
  /\ (truthyStr (Pokemon.transformedForme pokemon) = true ->
      is_Some (Pokemon.baseStats pokemon)).

(** The identity of the ability the adapter resolves for a combatant of a
    generation that has abilities. *)
Definition abilityIdentity (pokemon : Pokemon.t) : option string :=
  formatId (resolveAbility false pokemon).

End Functions.

(** *** Combatants and presets that differ in one field *)

Definition withMoves (pokemon : Pokemon.t) (moves : option (list string)) : Pokemon.t :=
  {| Pokemon.calcdexId := Pokemon.calcdexId pokemon;
     Pokemon.speciesForme := Pokemon.speciesForme pokemon;
     Pokemon.transformedForme := Pokemon.transformedForme pokemon;
     Pokemon.dirtyItem := Pokemon.dirtyItem pokemon;
     Pokemon.item := Pokemon.item pokemon;
     Pokemon.prevItem := Pokemon.prevItem pokemon;
     Pokemon.dirtyStatus := Pokemon.dirtyStatus pokemon;
     Pokemon.status := Pokemon.status pokemon;
     Pokemon.dirtyAbility := Pokemon.dirtyAbility pokemon;
     Pokemon.ability := Pokemon.ability pokemon;
     Pokemon.abilityToggleable := Pokemon.abilityToggleable pokemon;
     Pokemon.abilityToggled := Pokemon.abilityToggled pokemon;
     Pokemon.nature := Pokemon.nature pokemon;
     Pokemon.moves := moves;
     Pokemon.moveOverrides := Pokemon.moveOverrides pokemon;
     Pokemon.ivs := Pokemon.ivs pokemon;
     Pokemon.evs := Pokemon.evs pokemon;
     Pokemon.boosts := Pokemon.boosts pokemon;
     Pokemon.dirtyBoosts := Pokemon.dirtyBoosts pokemon;
     Pokemon.baseStats := Pokemon.baseStats pokemon;
     Pokemon.dirtyBaseStats := Pokemon.dirtyBaseStats pokemon;
     Pokemon.transformedBaseStats := Pokemon.transformedBaseStats pokemon;
     Pokemon.types := Pokemon.types pokemon;
     Pokemon.dirtyTypes := Pokemon.dirtyTypes pokemon;
     Pokemon.faintCounter := Pokemon.faintCounter pokemon;
     Pokemon.dirtyFaintCounter := Pokemon.dirtyFaintCounter pokemon;
     Pokemon.volatiles := Pokemon.volatiles pokemon |}.

Definition withSpread (pokemon : Pokemon.t) (ivs evs : option StatsTable) : Pokemon.t :=
  {| Pokemon.calcdexId := Pokemon.calcdexId pokemon;
     Pokemon.speciesForme := Pokemon.speciesForme pokemon;
     Pokemon.transformedForme := Pokemon.transformedForme pokemon;
     Pokemon.dirtyItem := Pokemon.dirtyItem pokemon;
     Pokemon.item := Pokemon.item pokemon;
     Pokemon.prevItem := Pokemon.prevItem pokemon;
     Pokemon.dirtyStatus := Pokemon.dirtyStatus pokemon;
     Pokemon.status := Pokemon.status pokemon;
     Pokemon.dirtyAbility := Pokemon.dirtyAbility pokemon;
     Pokemon.ability := Pokemon.ability pokemon;
     Pokemon.abilityToggleable := Pokemon.abilityToggleable pokemon;
     Pokemon.abilityToggled := Pokemon.abilityToggled pokemon;
     Pokemon.nature := Pokemon.nature pokemon;
     Pokemon.moves := Pokemon.moves pokemon;
     Pokemon.moveOverrides := Pokemon.moveOverrides pokemon;
     Pokemon.ivs := ivs;
     Pokemon.evs := evs;
     Pokemon.boosts := Pokemon.boosts pokemon;
     Pokemon.dirtyBoosts := Pokemon.dirtyBoosts pokemon;
     Pokemon.baseStats := Pokemon.baseStats pokemon;
     Pokemon.dirtyBaseStats := Pokemon.dirtyBaseStats pokemon;
     Pokemon.transformedBaseStats := Pokemon.transformedBaseStats pokemon;
     Pokemon.types := Pokemon.types pokemon;
     Pokemon.dirtyTypes := Pokemon.dirtyTypes pokemon;
     Pokemon.faintCounter := Pokemon.faintCounter pokemon;
     Pokemon.dirtyFaintCounter := Pokemon.dirtyFaintCounter pokemon;
     Pokemon.volatiles := Pokemon.volatiles pokemon |}.

Definition presetWithMoves (preset : Preset.t) (moves : option (list string)) : Preset.t :=
  {| Preset.source := Preset.source preset;
     Preset.ability := Preset.ability preset;
     Preset.item := Preset.item preset;
     Preset.nature := Preset.nature preset;
     Preset.moves := moves;
     Preset.ivs := Preset.ivs preset;
     Preset.evs := Preset.evs preset |}.

End Calc.

(** ** Reference helpers and sample data *)

Module Reference.
Import Js Calc.

Definition digitValue (c : ascii) : option Z :=
  let n := Z.of_N (N_of_ascii c) in
  if (48 <=? n)%Z && (n <=? 57)%Z then Some (n - 48)%Z else None.

Fixpoint readDigits (s : string) (acc : option Z) : option Z :=
  match s with
  | String c r =>
      match digitValue c with
      | Some d => readDigits r (Some (10 * default 0 acc + d)%Z)
      | None => acc
      end
  | EmptyString => acc
  end.

(** Modelled from the spec: [detectGenFromFormat] is not part of the
    sources at hand.  "Resolve generation from format": the number that
    follows a leading [gen], as in [gen9ou]; no result otherwise. *)
Definition detectGen (format : string) : option Z :=
  match format with
  | String "g" (String "e" (String "n" r)) =>
      match readDigits r None with
      | Some 0%Z => None
      | g => g
      end
  | _ => None
  end.

(** Modelled from the spec: [detectLegacyGen] is not part of the sources
    at hand.  A legacy generation is "an early ruleset era lacking
    natures, held items, or a split special stat": generations 1 and 2. *)
Definition legacyGen (format : FormatArg) : bool :=
  match
    match format with
    | FmtAbsent => None
    | FmtGen g => Some g
    | FmtStr s => detectGen s
    end
  with
  | Some g => (1 <=? g)%Z && (g <=? 2)%Z
  | None => false
  end.

Definition lowerCase (c : ascii) : ascii :=
  let n := N_of_ascii c in
  if (65 <=? n)%N && (n <=? 90)%N then ascii_of_N (n + 32) else c.

Definition alphaNumeric (c : ascii) : bool :=
  let n := N_of_ascii c in
  ((97 <=? n)%N && (n <=? 122)%N) || ((48 <=? n)%N && (n <=? 57)%N).

Fixpoint toId (s : string) : string :=
  match s with
  | EmptyString => EmptyString
  | String c r =>
      if alphaNumeric (lowerCase c) then String (lowerCase c) (toId r) else toId r
  end.

(** Modelled from the spec: the helpers of [@showdex/utils/dex],
    [@showdex/utils/core] and [@showdex/consts/dex] are not part of the
    sources at hand.  An "ability identity" is the name in lower case
    with everything but letters and digits removed; the pseudo-toggleable
    abilities listed are those the adapter itself mentions: the Ruin
    abilities, Multiscale and Shadow Shield, Protosynthesis and Quark
    Drive. *)
#[export] Instance showdex : Imports := {
  GenDex := Z;
  getGenDexForFormat := detectGen;
  detectGenFromFormat := detectGen;
  detectLegacyGen := legacyGen;
  formatId := fun value => toId <$> value;
  nonEmptyObject := fun A o =>
    match o with
    | Some m => negb (bool_decide (map_to_list m = []))
    | None => false
    end;
  PokemonToggleAbilities :=
    ["Beads of Ruin"; "Multiscale"; "Protosynthesis"; "Quark Drive";
     "Shadow Shield"; "Sword of Ruin"; "Tablets of Ruin"; "Vessel of Ruin"];
}.

(** A combatant with an identity, no types, empty tables and no overrides. *)
Definition blank : Pokemon.t :=
  {| Pokemon.calcdexId := Some "id-1";
     Pokemon.speciesForme := Some "Mew";
     Pokemon.transformedForme := None;
     Pokemon.dirtyItem := None;
     Pokemon.item := None;
     Pokemon.prevItem := None;
     Pokemon.dirtyStatus := None;
     Pokemon.status := None;
     Pokemon.dirtyAbility := None;
     Pokemon.ability := None;
     Pokemon.abilityToggleable := false;
     Pokemon.abilityToggled := false;
     Pokemon.nature := None;
     Pokemon.moves := None;
     Pokemon.moveOverrides := None;
     Pokemon.ivs := None;
     Pokemon.evs := None;
     Pokemon.boosts := None;
     Pokemon.dirtyBoosts := None;
     Pokemon.baseStats := Some ∅;
     Pokemon.dirtyBaseStats := None;
     Pokemon.transformedBaseStats := None;
     Pokemon.types := Some [];
     Pokemon.dirtyTypes := None;
     Pokemon.faintCounter := None;
     Pokemon.dirtyFaintCounter := None;
     Pokemon.volatiles := Some ∅ |}.

(** The six entries of a stats table, in the order hp, atk, def, spa, spd, spe. *)
Definition table (hp atk def spa spd spe : Z) : StatsTable :=
  <["hp" := Some hp]> (<["atk" := Some atk]> (<["def" := Some def]>
    (<["spa" := Some spa]> (<["spd" := Some spd]> (<["spe" := Some spe]> ∅))))).

(** A combatant of generation 4 that transformed and then used Power Trick. *)
Definition dittoPowerTrick : Pokemon.t :=
  {| Pokemon.calcdexId := Some "id-2"; Pokemon.speciesForme := Some "Ditto";
     Pokemon.transformedForme := Some "Shuckle";
     Pokemon.dirtyItem := None; Pokemon.item := None; Pokemon.prevItem := None;
     Pokemon.dirtyStatus := None; Pokemon.status := None;
     Pokemon.dirtyAbility := None; Pokemon.ability := Some "Limber";
     Pokemon.abilityToggleable := false; Pokemon.abilityToggled := false;
     Pokemon.nature := Some "Relaxed"; Pokemon.moves := Some ["Power Trick"];
     Pokemon.moveOverrides := None;
     Pokemon.ivs := None; Pokemon.evs := None;
     Pokemon.boosts := None; Pokemon.dirtyBoosts := None;
     Pokemon.baseStats := Some (table 48 48 48 48 48 48);
     Pokemon.dirtyBaseStats := None;
     Pokemon.transformedBaseStats := Some (table 20 10 230 10 230 5);
     Pokemon.types := Some ["Bug"; "Rock"]; Pokemon.dirtyTypes := None;
     Pokemon.faintCounter := None; Pokemon.dirtyFaintCounter := None;
     Pokemon.volatiles :=
       Some (<["transform" := ["Shuckle"]]> (<["powertrick" := []]> ∅)) |}.

(** A transformed combatant of generation 1 whose [transformedBaseStats]
    holds two different special stats. *)
Definition dittoGen1 : Pokemon.t :=
  {| Pokemon.calcdexId := Some "id-3"; Pokemon.speciesForme := Some "Ditto";
     Pokemon.transformedForme := Some "Alakazam";
     Pokemon.dirtyItem := None; Pokemon.item := None; Pokemon.prevItem := None;
     Pokemon.dirtyStatus := None; Pokemon.status := None;
     Pokemon.dirtyAbility := None; Pokemon.ability := None;
     Pokemon.abilityToggleable := false; Pokemon.abilityToggled := false;
     Pokemon.nature := None; Pokemon.moves := Some ["Transform"];
     Pokemon.moveOverrides := None;
     Pokemon.ivs := None; Pokemon.evs := None;
     Pokemon.boosts := None; Pokemon.dirtyBoosts := None;
     Pokemon.baseStats := Some (table 48 48 48 48 48 48);
     Pokemon.dirtyBaseStats := None;
     Pokemon.transformedBaseStats := Some (table 55 50 45 135 85 120);
     Pokemon.types := Some ["Psychic"]; Pokemon.dirtyTypes := None;
     Pokemon.faintCounter := None; Pokemon.dirtyFaintCounter := None;
     Pokemon.volatiles := Some (<["transform" := ["Alakazam"]]> ∅) |}.

(** A combatant of generation 9 with the given ability, either observed
    ([ability]) or set by the user ([dirtyAbility]). *)
Definition ruinHolder (species : string) (ability dirtyAbility : option string) : Pokemon.t :=
  {| Pokemon.calcdexId := Some ("id-" ++ species); Pokemon.speciesForme := Some species;
     Pokemon.transformedForme := None;
     Pokemon.dirtyItem := None; Pokemon.item := None; Pokemon.prevItem := None;
     Pokemon.dirtyStatus := None; Pokemon.status := None;
     Pokemon.dirtyAbility := dirtyAbility; Pokemon.ability := ability;
     Pokemon.abilityToggleable := false; Pokemon.abilityToggled := false;
     Pokemon.nature := Some "Jolly"; Pokemon.moves := Some ["Icicle Crash"];
     Pokemon.moveOverrides := None;
     Pokemon.ivs := None; Pokemon.evs := None;
     Pokemon.boosts := None; Pokemon.dirtyBoosts := None;
     Pokemon.baseStats := Some (table 80 120 80 90 65 135);
     Pokemon.dirtyBaseStats := None;
     Pokemon.transformedBaseStats := None;
     Pokemon.types := Some ["Dark"; "Ice"]; Pokemon.dirtyTypes := None;
     Pokemon.faintCounter := None; Pokemon.dirtyFaintCounter := None;
     Pokemon.volatiles := Some ∅ |}.

(** A Protean user whose type was edited to Poison and that carries no
    [typechange] volatile, with its [abilityToggled] flag as given. *)
Definition greninja (abilityToggled : bool) : Pokemon.t :=
  {| Pokemon.calcdexId := Some "id-4"; Pokemon.speciesForme := Some "Greninja";
     Pokemon.transformedForme := None;
     Pokemon.dirtyItem := None; Pokemon.item := Some "Life Orb"; Pokemon.prevItem := None;
     Pokemon.dirtyStatus := None; Pokemon.status := None;
     Pokemon.dirtyAbility := None; Pokemon.ability := Some "Protean";
     Pokemon.abilityToggleable := true; Pokemon.abilityToggled := abilityToggled;
     Pokemon.nature := Some "Timid"; Pokemon.moves := Some ["Gunk Shot"; "Surf"];
     Pokemon.moveOverrides := None;
     Pokemon.ivs := None; Pokemon.evs := None;
     Pokemon.boosts := None; Pokemon.dirtyBoosts := None;
     Pokemon.baseStats := Some (table 72 95 67 103 71 122);
     Pokemon.dirtyBaseStats := None;
     Pokemon.transformedBaseStats := None;
     Pokemon.types := Some ["Water"; "Dark"]; Pokemon.dirtyTypes := Some ["Poison"];
     Pokemon.faintCounter := None; Pokemon.dirtyFaintCounter := None;
     Pokemon.volatiles := Some ∅ |}.

(** A combatant whose overrides are present but not effective: the
    status sentinel, a negative base stat, an empty list of types. *)
Definition sentinelOverrides : Pokemon.t :=
  {| Pokemon.calcdexId := Some "id-5"; Pokemon.speciesForme := Some "Vaporeon";
     Pokemon.transformedForme := None;
     Pokemon.dirtyItem := None; Pokemon.item := Some "Leftovers"; Pokemon.prevItem := None;
     Pokemon.dirtyStatus := Some "???"; Pokemon.status := Some "brn";
     Pokemon.dirtyAbility := None; Pokemon.ability := Some "Water Absorb";
     Pokemon.abilityToggleable := false; Pokemon.abilityToggled := false;
     Pokemon.nature := Some "Bold"; Pokemon.moves := Some ["Scald"];
     Pokemon.moveOverrides := None;
     Pokemon.ivs := None; Pokemon.evs := None;
     Pokemon.boosts := None; Pokemon.dirtyBoosts := None;
     Pokemon.baseStats := Some (table 130 65 60 110 95 65);
     Pokemon.dirtyBaseStats := Some (<["atk" := Some (-1)%Z]> ∅);
     Pokemon.transformedBaseStats := None;
     Pokemon.types := Some ["Water"]; Pokemon.dirtyTypes := Some [];
     Pokemon.faintCounter := None; Pokemon.dirtyFaintCounter := None;
     Pokemon.volatiles := Some ∅ |}.


(** The combatant and the preset of the example in the documentation of
    [appliedPreset]. *)
Definition garganacl : Pokemon.t :=
  {| Pokemon.calcdexId := Some "id-7"; Pokemon.speciesForme := Some "Garganacl";
     Pokemon.transformedForme := None;
     Pokemon.dirtyItem := None; Pokemon.item := None; Pokemon.prevItem := Some "Leftovers";
     Pokemon.dirtyStatus := None; Pokemon.status := None;
     Pokemon.dirtyAbility := Some "Purifying Salt"; Pokemon.ability := None;
     Pokemon.abilityToggleable := false; Pokemon.abilityToggled := false;
     Pokemon.nature := Some "Impish";
     Pokemon.moves := Some ["Protect"; "Recover"; "Stealth Rock"; "Salt Cure"];
     Pokemon.moveOverrides := None;
     Pokemon.ivs := Some (table 31 31 31 31 31 31);
     Pokemon.evs := Some (table 252 0 228 0 28 0);
     Pokemon.boosts := None; Pokemon.dirtyBoosts := None;
     Pokemon.baseStats := Some (table 100 100 130 45 90 35);
     Pokemon.dirtyBaseStats := None;
     Pokemon.transformedBaseStats := None;
     Pokemon.types := Some ["Rock"]; Pokemon.dirtyTypes := None;
     Pokemon.faintCounter := None; Pokemon.dirtyFaintCounter := None;
     Pokemon.volatiles := Some ∅ |}.

Definition garganaclPreset : Preset.t :=
  {| Preset.source := Some "smogon";
     Preset.ability := Some "Purifying Salt";
     Preset.item := Some "Leftovers";
     Preset.nature := Some "Impish";
     Preset.moves := Some ["Salt Cure"; "Recover"; "Protect"; "Stealth Rock"];
     Preset.ivs := None;
     Preset.evs :=
       Some (<["hp" := Some 252%Z]> (<["def" := Some 228%Z]> (<["spd" := Some 28%Z]> ∅))) |}.

(** A combatant of generation 1 whose HP DV is 0, and a preset that
    leaves the DVs at their default. *)
Definition snorlax : Pokemon.t :=
  {| Pokemon.calcdexId := Some "id-8"; Pokemon.speciesForme := Some "Snorlax";
     Pokemon.transformedForme := None;
     Pokemon.dirtyItem := None; Pokemon.item := None; Pokemon.prevItem := None;
     Pokemon.dirtyStatus := None; Pokemon.status := None;
     Pokemon.dirtyAbility := None; Pokemon.ability := None;
     Pokemon.abilityToggleable := false; Pokemon.abilityToggled := false;
     Pokemon.nature := None;
     Pokemon.moves := Some ["Body Slam"; "Rest"];
     Pokemon.moveOverrides := None;
     Pokemon.ivs := Some (table 0 30 30 30 30 30);
     Pokemon.evs := Some (table 252 252 252 252 252 252);
     Pokemon.boosts := None; Pokemon.dirtyBoosts := None;
     Pokemon.baseStats := Some (table 160 110 65 65 65 30);
     Pokemon.dirtyBaseStats := None;
     Pokemon.transformedBaseStats := None;
     Pokemon.types := Some ["Normal"]; Pokemon.dirtyTypes := None;
     Pokemon.faintCounter := None; Pokemon.dirtyFaintCounter := None;
     Pokemon.volatiles := Some ∅ |}.

Definition snorlaxPreset : Preset.t :=
  {| Preset.source := Some "smogon";
     Preset.ability := None;
     Preset.item := None;
     Preset.nature := None;
     Preset.moves := Some ["Body Slam"; "Rest"];
     Preset.ivs := None;
     Preset.evs := None |}.

End Reference.

(** ** The move options of the dropdown: [buildMoveOptions] *)

Module Moves.
Import Js Calc.

(** [CalcdexPokemonAlt<MoveName>]: a move name, or a pair of a move name
    and its usage. *)
Inductive Alt (U : Type) : Type :=
| AltName (name : string)
| AltUsage (name : string) (usage : U).
Arguments AltName {U} name.
Arguments AltUsage {U} name usage.

(** [!!alt] *)
Definition truthyAlt {U} (alt : Alt U) : bool :=
  match alt with
  | AltName name => negb (String.eqb name "")
  | AltUsage _ _ => true
  end.

(** [Array.isArray(alt) && typeof alt[1] === 'number'] *)
Definition hasUsage {U} (alt : Alt U) : bool :=
  match alt with
  | AltName _ => false
  | AltUsage _ _ => true
  end.

(** What [buildMoveOptions] imports from modules that are not part of
    the sources at hand, and the globals of the client it reads.
    [dexMoveName gen moveid] is [Dex.forGen(gen).moves.get(moveid)?.name];
    [BattleMovedex] is the list of the keys of that global, if defined. *)
Class Imports : Type := {
  Usage : Type;
  LegalLockedFormats : list string;
  formatId : string -> option string;
  percentage : Usage -> Z -> string;
  flattenAlt : Alt Usage -> string;
  flattenAlts : list (Alt Usage) -> list string;
  getMaxMove : string -> option string -> option string -> option string;
  getZMove : string -> option string -> option string;
  getPokemonLearnset : string -> option string -> bool -> list string;
  usageAltPercentFinder : option (list (Alt Usage)) -> bool -> string -> option string;
  BattleMovedex : option (list string);
  dexMoveName : option Z -> string -> option string;
}.

(** An option of the dropdown, and a group of options. *)
Module MoveOption.
Record t : Type := {
  label : string;
  rightLabel : option string;
  value : string;
}.
End MoveOption.

Module Group.
Record t : Type := {
  label : string;
  options : list MoveOption.t;
}.
End Group.

Section Functions.
Context `{Calc.Imports} `{Imports}.

(** [DeepPartial<CalcdexPokemon>], restricted to the fields
    [buildMoveOptions] reads.  A cleared slot of a list of moves holds
    the empty string. *)
Record Source : Type := {
  speciesForme : option string;
  transformedForme : option string;
  dirtyAbility : option string;
  ability : option string;
  dirtyItem : option string;
  item : option string;
  serverSourced : bool;
  moves : option (list string);
  serverMoves : option (list string);
  transformedMoves : option (list string);
  altMoves : option (list (Alt Usage));
  revealedMoves : option (list string);
  useZ : bool;
  useMax : bool;
}.

Definition isDigit (c : ascii) : bool :=
  (48 <=? N_of_ascii c)%N && (N_of_ascii c <=? 57)%N.

Definition isLetter (c : ascii) : bool :=
  ((97 <=? N_of_ascii c)%N && (N_of_ascii c <=? 122)%N)
  || ((65 <=? N_of_ascii c)%N && (N_of_ascii c <=? 90)%N).

(** Equality of two characters where the case of letters is ignored. *)
Definition sameLetter (c d : ascii) : bool :=
  Ascii.eqb c d
  || (isLetter c && isLetter d
      && (N.land (N_of_ascii c) 223 =? N.land (N_of_ascii d) 223)%N).

Fixpoint dropDigits (s : string) : string :=
  match s with
  | String c r => if isDigit c then dropDigits r else s
  | EmptyString => EmptyString
  end.

(** [format.replace(/^gen\d+/i, '')] *)
Definition genless (format : string) : string :=
  match format with
  | String g (String e (String n (String d r))) =>
      if sameLetter g "g" && sameLetter e "e" && sameLetter n "n" && isDigit d
      then dropDigits r
      else format
  | _ => format
  end.

Fixpoint allLetters (s : string) : bool :=
  match s with
  | String c r => isLetter c && allLetters r
  | EmptyString => true
  end.

Fixpoint prefixNoCase (p s : string) : option string :=
  match p, s with
  | EmptyString, _ => Some s
  | String c p', String d s' => if sameLetter c d then prefixNoCase p' s' else None
  | String _ _, EmptyString => None
  end.

(** [/^hiddenpower[a-z]*$/i.test(id)]; a [null] is tested as the text
    [null]. *)
Definition hiddenPowerId (id : option string) : bool :=
  match id with
  | Some s =>
      match prefixNoCase "hiddenpower" s with
      | Some rest => allLetters rest
      | None => false
      end
  | None => false
  end.

(** [Array.from(new Set(l))]: the first occurrence of each element. *)
Fixpoint dedupe (seen l : list string) : list string :=
  match l with
  | [] => []
  | x :: r =>
      if bool_decide (x ∈ seen) then dedupe seen r else x :: dedupe (x :: seen) r
  end.

(** [l.push(x)] and [l.push(...xs)] *)
Definition push {A} (l : list A) (x : A) : list A := (l ++ [x])%list.
Definition pushAll {A} (l xs : list A) : list A := (l ++ xs)%list.

(** [!!n && !filterMoves.includes(n)] *)
Definition fresh (filterMoves : list string) (n : string) : bool :=
  negb (String.eqb n "") && negb (bool_decide (n ∈ filterMoves)).

(** The group most blocks build: each name with its usage on the right. *)
Definition namedGroup (findUsagePercent : string -> option string)
    (label : string) (names : list string) : Group.t :=
  {| Group.label := label;
     Group.options :=
       map (fun name =>
              {| MoveOption.label := name;
                 MoveOption.rightLabel := findUsagePercent name;
                 MoveOption.value := name |}) names |}.

(** [options.splice(index, 0, group)] *)
Definition spliceAt (index : nat) (group : Group.t) (options : list Group.t) : list Group.t :=
  take index options ++ group :: drop index options.

(** [options.findIndex((o) => o.label === label)], [None] for [-1]. *)
Fixpoint findIndex (label : string) (options : list Group.t) : option nat :=
  match options with
  | [] => None
  | g :: r =>
      if String.eqb (Group.label g) label then Some 0%nat
      else S <$> findIndex label r
  end.

(** The filter of the learnset; [formatId(n).startsWith(...)] is not
    guarded. *)
Fixpoint learnsetFilter (filterMoves l : list string) : Completion (list string) :=
  match l with
  | [] => Return []
  | n :: r =>
      keep ←
        (if negb (String.eqb n "")
         then
           match formatId n with
           | Some id =>
               Return (negb (String.prefix "hiddenpower" id)
                       && negb (bool_decide (n ∈ filterMoves)))
           | None => Throw
           end
         else Return false : Completion bool);
      rest ← learnsetFilter filterMoves r;
      Return (if (keep : bool) then n :: rest else rest)
  end.

(** The names of the moves of the generation:
    [Object.keys(BattleMovedex || {}).map((moveid) => Dex.forGen(gen).moves.get(moveid)?.name)],
    an absent name written as the empty string. *)
Definition dexMoveNames (gen : option Z) : list string :=
  map (fun moveid => default "" (dexMoveName gen moveid)) (default [] BattleMovedex).

(** The option groups built so far and the moves they hold
    ([options] and [filterMoves]). *)
Definition State : Type := list Group.t * list string.

Section Blocks.
Variable pokemon : Source.
Variable findUsagePercent : string -> option string.

Definition zGroup (item : option string) : Group.t :=
  {| Group.label := "Z-PWR";
     Group.options :=
       map (fun name =>
              {| MoveOption.label := default name (orElse (getZMove name item) None);
                 MoveOption.rightLabel := None;
                 MoveOption.value := name |})
         (default [] (moves pokemon)) |}.

Definition maxGroup (ability : option string) : Group.t :=
  {| Group.label := "Max";
     Group.options :=
       map (fun name =>
              {| MoveOption.label :=
                   default name
                     (orElse (getMaxMove name ability (speciesForme pokemon)) None);
                 MoveOption.rightLabel := findUsagePercent name;
                 MoveOption.value := name |})
         (default [] (moves pokemon)) |}.

Definition zBlock (item : option string) (st : State) : State :=
  if useZ pokemon && negb (useMax pokemon) && nonEmptyList (moves pokemon)
  then (push st.1 (zGroup item), pushAll st.2 (default [] (moves pokemon)))
  else st.

Definition maxBlock (ability : option string) (st : State) : State :=
  if useMax pokemon && nonEmptyList (moves pokemon)
  then (push st.1 (maxGroup ability), pushAll st.2 (default [] (moves pokemon)))
  else st.

Definition serverBlock (st : State) : State :=
  if serverSourced pokemon && nonEmptyList (serverMoves pokemon)
  then
    let filteredServerMoves :=
      List.filter (fresh st.2) (default [] (serverMoves pokemon)) in
    (push st.1
       (namedGroup findUsagePercent
          (if truthyStr (transformedForme pokemon) then "Pre-Transform" else "Current")
          filteredServerMoves),
     pushAll st.2 filteredServerMoves)
  else st.

(** The group is put in front of the others ([unshift]). *)
Definition transformedBlock (st : State) : State :=
  if truthyStr (transformedForme pokemon) && nonEmptyList (transformedMoves pokemon)
  then
    let filteredTransformedMoves :=
      List.filter (fresh st.2) (default [] (transformedMoves pokemon)) in
    (namedGroup findUsagePercent "Transformed" filteredTransformedMoves :: st.1,
     pushAll st.2 filteredTransformedMoves)
  else st.

Definition revealedBlock (st : State) : State :=
  if nonEmptyList (revealedMoves pokemon)
  then
    let filteredRevealedMoves :=
      List.filter (fresh st.2) (default [] (revealedMoves pokemon)) in
    (push st.1 (namedGroup findUsagePercent "Revealed" filteredRevealedMoves),
     pushAll st.2 filteredRevealedMoves)
  else st.

Definition poolGroup (poolMoves : list (Alt Usage)) : Group.t :=
  {| Group.label := "Pool";
     Group.options :=
       map (fun alt =>
              {| MoveOption.label := flattenAlt alt;
                 MoveOption.rightLabel :=
                   match alt with
                   | AltUsage _ usage => Some (percentage usage 2)
                   | AltName _ => None
                   end;
                 MoveOption.value := flattenAlt alt |})
         poolMoves |}.

Definition poolBlock (st : State) : State :=
  if nonEmptyList (altMoves pokemon)
  then
    let unsortedPoolMoves :=
      List.filter
        (fun a => truthyAlt a && negb (bool_decide (flattenAlt a ∈ st.2)))
        (default [] (altMoves pokemon)) in
    let hasUsageStats := existsb hasUsage (default [] (altMoves pokemon)) in
    let poolMoves :=
      if hasUsageStats
      then unsortedPoolMoves
      else map AltName (sort (flattenAlts unsortedPoolMoves)) in
    (push st.1 (poolGroup poolMoves), pushAll st.2 (flattenAlts poolMoves))
  else st.

Definition learnsetBlock (learnset : list string) (st : State) : Completion State :=
  match learnset with
  | [] => Return st
  | _ :: _ =>
      filtered ← learnsetFilter st.2 (dedupe [] learnset);
      Return (push st.1 (namedGroup findUsagePercent "Learnset" (sort filtered)),
              pushAll st.2 (sort filtered))
  end.

(** [gen > 1], false on a [null] generation. *)
Definition aboveGen1 (gen : option Z) : bool :=
  match gen with
  | Some g => (1 <? g)%Z
  | None => false
  end.

Definition hiddenPowerBlock (gen : option Z) (st : State) : State :=
  if aboveGen1 gen
  then
    let unsortedHpMoves :=
      List.filter
        (fun n => negb (String.eqb n "") && hiddenPowerId (formatId n)
                  && negb (bool_decide (n ∈ st.2)))
        (dexMoveNames gen) in
    let hpMoves := sort (dedupe [] unsortedHpMoves) in
    (push st.1 (namedGroup findUsagePercent "Hidden Power" hpMoves),
     pushAll st.2 hpMoves)
  else st.

(** The group is put in front of the group [Hidden Power], and in front
    of every group when there is none: [Math.max(hiddenPowerIndex, 0)]. *)
Definition allBlock (gen : option Z) (showAllMoves : bool) (learnset : list string)
    (st : State) : list Group.t :=
  if showAllMoves || bool_decide (learnset = [])
  then
    let otherMoves := sort (List.filter (fresh st.2) (dexMoveNames gen)) in
    spliceAt (default 0%nat (findIndex "Hidden Power" st.1))
      (namedGroup findUsagePercent "All" otherMoves) st.1
  else st.1.

End Blocks.

Definition buildMoveOptions (format : string) (pokemon : option Source)
    : Completion (list Group.t) :=
  match pokemon with
  | None => Return []
  | Some pokemon =>
      if negb (truthyStr (speciesForme pokemon)) then Return []
      else
        let gen := detectGenFromFormat format in
        let genlessFormat := genless format in
        let showAllMoves :=
          String.eqb genlessFormat ""
          || negb (bool_decide (genlessFormat ∈ LegalLockedFormats)) in
        let ability := nullish (dirtyAbility pokemon) (ability pokemon) in
        let item := nullish (dirtyItem pokemon) (item pokemon) in
        let findUsagePercent := usageAltPercentFinder (altMoves pokemon) true in
        let learnset :=
          pushAll (getPokemonLearnset format (speciesForme pokemon) showAllMoves)
            (if truthyStr (transformedForme pokemon)
             then getPokemonLearnset format (transformedForme pokemon) showAllMoves
             else []) in
        st ← learnsetBlock findUsagePercent learnset
               (poolBlock pokemon
                  (revealedBlock pokemon findUsagePercent
                     (transformedBlock pokemon findUsagePercent
                        (serverBlock pokemon findUsagePercent
                           (maxBlock pokemon findUsagePercent ability
                              (zBlock pokemon item ([], [])))))));
        Return (allBlock findUsagePercent gen showAllMoves learnset
                  (hiddenPowerBlock findUsagePercent gen st))
  end.

(** The values a group offers. *)
Definition values (g : Group.t) : list string :=
  map MoveOption.value (Group.options g).

(** Two groups that offer no common value. *)
Definition disjoint (g g' : Group.t) : Prop :=
  forall v, v ∈ values g -> v ∈ values g' -> False.

(** The groups built so far share no value, and [filterMoves] holds the
    values they offer and no other. *)
Definition tracked (st : State) : Prop :=
  ForallOrdPairs disjoint st.1
  /\ Forall (fun g => forall v, v ∈ values g -> v ∈ st.2) st.1
  /\ (forall v, v ∈ st.2 -> exists g, g ∈ st.1 /\ v ∈ values g).

(** The learnset [buildMoveOptions] reads, and whether it shows every
    move of the dex. *)
Definition showsAllMoves (format : string) : bool :=
  String.eqb (genless format) ""
  || negb (bool_decide (genless format ∈ LegalLockedFormats)).

Definition learnsetOf (format : string) (pokemon : Source) : list string :=
  pushAll (getPokemonLearnset format (speciesForme pokemon) (showsAllMoves format))
    (if truthyStr (transformedForme pokemon)
     then getPokemonLearnset format (transformedForme pokemon) (showsAllMoves format)
     else []).

(** The labels of the groups of the blocks up to the learnset, in the
    order they end up in. *)
Definition blockLabels (format : string) (pokemon : Source) : list string :=
  ((if truthyStr (transformedForme pokemon) && nonEmptyList (transformedMoves pokemon)
    then ["Transformed"] else [])
   ++ (if useZ pokemon && negb (useMax pokemon) && nonEmptyList (moves pokemon)
       then ["Z-PWR"] else [])
   ++ (if useMax pokemon && nonEmptyList (moves pokemon) then ["Max"] else [])
   ++ (if serverSourced pokemon && nonEmptyList (serverMoves pokemon)
       then [if truthyStr (transformedForme pokemon) then "Pre-Transform" else "Current"]
       else [])
   ++ (if nonEmptyList (revealedMoves pokemon) then ["Revealed"] else [])
   ++ (if nonEmptyList (altMoves pokemon) then ["Pool"] else [])
   ++ (match learnsetOf format pokemon with [] => [] | _ :: _ => ["Learnset"] end))%list.

(** The labels of the groups [buildMoveOptions] answers with, in order,
    as they follow from the conditions of its blocks. *)
Definition expectedLabels (format : string) (pokemon : Source) : list string :=
  let all :=
    if showsAllMoves format || bool_decide (learnsetOf format pokemon = [])
    then ["All"] else [] in
  if aboveGen1 (detectGenFromFormat format)
  then (blockLabels format pokemon ++ all ++ ["Hidden Power"])%list
  else (all ++ blockLabels format pokemon)%list.

End Functions.
End Moves.

Module MovesReference.
Import Js Calc Moves.

(** Modelled from the spec: the helpers [buildMoveOptions] imports and
    the globals it reads are not part of the sources at hand.  The usage
    of a move is a percentage, [flattenAlt] is the name of an
    alternative, the dex knows five moves, and every species learns the
    first three. *)
#[export] Instance showdexMoves : Moves.Imports := {
  Usage := Z;
  LegalLockedFormats := ["ou"; "ubers"];
  formatId := fun value => Some (Reference.toId value);
  percentage := fun usage _ => numberToString usage ++ "%";
  flattenAlt := fun alt =>
    match alt with
    | AltName name => name
    | AltUsage name _ => name
    end;
  flattenAlts := map (fun alt =>
    match alt with
    | AltName name => name
    | AltUsage name _ => name
    end);
  getMaxMove := fun _ _ _ => None;
  getZMove := fun _ _ => None;
  getPokemonLearnset := fun _ _ _ => ["Surf"; "Ice Beam"; "Hidden Power Fire"];
  usageAltPercentFinder := fun _ _ _ => None;
  BattleMovedex := Some ["surf"; "icebeam"; "hiddenpowerfire"; "hiddenpowerice"; "tackle"];
  dexMoveName := fun _ moveid =>
    List.find (fun name => String.eqb (Reference.toId name) moveid)
      ["Surf"; "Ice Beam"; "Hidden Power Fire"; "Hidden Power Ice"; "Tackle"];
}.

(** A combatant that revealed Surf and whose pool holds Ice Beam and
    Surf. *)
Definition starmie : Source :=
  {| speciesForme := Some "Starmie"; transformedForme := None;
     dirtyAbility := None; ability := Some "Natural Cure";
     dirtyItem := None; item := None;
     serverSourced := false;
     moves := Some ["Surf"]; serverMoves := None; transformedMoves := None;
     altMoves := Some [AltName "Ice Beam"; AltName "Surf"];
     revealedMoves := Some ["Surf"];
     useZ := false; useMax := false |}.

End MovesReference.

(** * Properties *)

(** Discharges [Calc.ready] on closed data by evaluation. *)
Ltac ready_by_evaluation :=
  unfold Calc.ready; repeat split; try (vm_compute; eauto; fail);
  [ eexists; split; [reflexivity | lia]
  | cbn; repeat constructor; vm_compute; eauto ].

(** ** The hydration codec *)

(** The examples given in the documentation of the dehydrators. *)
Module HydroExamples.
Import Js Hydro.

Example ex_array : dehydrateArray (JArr [JStr "Ice"; JStr "Ghost"]) "/" = Some "Ice/Ghost".
Proof. reflexivity. Qed.

Example ex_playerSide :
  dehydratePlayerSide
    (JObj [("spikes", JNum 0); ("isSR", JBool true); ("isReflect", JBool true);
           ("isLightScreen", JBool false); ("isAuroraVeil", JBool false)]) "/"
  = "isSR=y/isReflect=y".
Proof. reflexivity. Qed.

Example ex_perSide_bool :
  dehydratePerSide
    (JObj [("p1", JBool true); ("auth", JBool false); ("p2", JBool true);
           ("p3", JBool true); ("p4", JBool true)]) "/" ","
  = "n/y/y/y/y".
Proof. reflexivity. Qed.

Example ex_perSide_list :
  dehydratePerSide
    (JObj [("auth", JArr []); ("p1", JArr [JStr "iv"; JStr "ev"]);
           ("p2", JArr [JStr "iv"; JStr "ev"]); ("p3", JArr [JStr "iv"; JStr "ev"]);
           ("p4", JArr [JStr "iv"; JStr "ev"])]) "/" ","
  = "/iv,ev/iv,ev/iv,ev/iv,ev".
Proof. reflexivity. Qed.

End HydroExamples.

Section HydroFacts.
Import Js Hydro.

Lemma countChar_app c (a b : string) :
  countChar c (a ++ b) = (countChar c a + countChar c b)%nat.
Proof.
  induction a as [|x a IH]; simpl; [reflexivity|].
  rewrite IH. lia.
Qed.

Lemma countChar_strip_slash (s : string) :
  countChar "/" (stripDelimiters s) = countChar "/" s.
Proof.
  induction s as [|x s IH]; cbn [stripDelimiters countChar]; [reflexivity|].
  destruct (isDelimiter x) eqn:Hd; cbn [countChar]; rewrite IH; [|reflexivity].
  destruct (Ascii.eqb "/" x) eqn:Hx; [|reflexivity].
  apply Ascii.eqb_eq in Hx. subst x. discriminate Hd.
Qed.

Lemma countChar_orPlaceholder (s : string) :
  countChar "/" (orPlaceholder s) = countChar "/" s.
Proof. destruct s; reflexivity. Qed.

Lemma countChar_uint (d : Decimal.uint) :
  countChar "/" (NilEmpty.string_of_uint d) = 0%nat.
Proof. induction d; simpl; auto. Qed.

Lemma countChar_numberToString (n : Z) :
  countChar "/" (numberToString n) = 0%nat.
Proof.
  unfold numberToString, NilZero.string_of_int, NilZero.string_of_uint.
  destruct (Z.to_int n) as [d|d]; destruct d; simpl;
    auto using countChar_uint.
Qed.

(** A slot that holds a number or nothing never contains the separator. *)
Lemma dehydrateValue_no_slash (v : JsValue) :
  numberOrNullish v = true -> countChar "/" (dehydrateValue v) = 0%nat.
Proof.
  destruct v; simpl; try discriminate; intros _; try reflexivity.
  rewrite countChar_orPlaceholder, countChar_strip_slash.
  apply countChar_numberToString.
Qed.

Lemma dehydrateValue_nullish (v : JsValue) :
  isNullish v = true -> dehydrateValue v = "?".
Proof. destruct v; simpl; try discriminate; reflexivity. Qed.

Lemma dehydrateValue_unconvertible (v : JsValue) :
  (forall s, toString v = Some s -> stripDelimiters s = "") ->
  dehydrateValue v = "?".
Proof.
  intros Hs. destruct v as [| |b|n|s|l|kvs]; try reflexivity.
  - destruct b; [specialize (Hs "true" eq_refl)|specialize (Hs "false" eq_refl)];
      discriminate Hs.
  - unfold dehydrateValue. destruct (toString (JNum n)) as [t|] eqn:E; [|reflexivity].
    rewrite (Hs t eq_refl). reflexivity.
  - unfold dehydrateValue. destruct (toString (JStr s)) as [t|] eqn:E; [|reflexivity].
    rewrite (Hs t eq_refl). reflexivity.
  - unfold dehydrateValue. destruct (toString (JArr l)) as [t|] eqn:E; [|reflexivity].
    rewrite (Hs t eq_refl). reflexivity.
  - specialize (Hs _ eq_refl). discriminate Hs.
Qed.

End HydroFacts.

(** C9.  With the default delimiter [dehydrateStatsTable] writes six slots
    in the order hp, atk, def, spa, spd, spe, separated by [/]; a slot whose
    stat is absent, or whose text is empty once the delimiter characters
    are removed, is the placeholder [?]; for a table of numbers the output
    holds exactly five separators, hence exactly six slots; and the table
    [{hp: 31, atk: 0, def: 31, spa: 31, spd: 31, spe: 31}] is written
    [31/0/31/31/31/31]. *)
Theorem dehydrateStatsTable_six_slots (value : Js.JsValue) :
  Hydro.dehydrateStatsTable value "/" =
    Hydro.dehydrateValue (Js.getProp value "hp") ++ "/" ++
    Hydro.dehydrateValue (Js.getProp value "atk") ++ "/" ++
    Hydro.dehydrateValue (Js.getProp value "def") ++ "/" ++
    Hydro.dehydrateValue (Js.getProp value "spa") ++ "/" ++
    Hydro.dehydrateValue (Js.getProp value "spd") ++ "/" ++
    Hydro.dehydrateValue (Js.getProp value "spe")
  /\ (forall k, Js.isNullish (Js.getProp value k) = true ->
        Hydro.dehydrateValue (Js.getProp value k) = "?")
  /\ (forall k,
        (forall s, Js.toString (Js.getProp value k) = Some s ->
                   Hydro.stripDelimiters s = "") ->
        Hydro.dehydrateValue (Js.getProp value k) = "?")
  /\ ((forall k, k ∈ Hydro.statKeys -> Js.numberOrNullish (Js.getProp value k) = true) ->
      Js.countChar "/" (Hydro.dehydrateStatsTable value "/") = 5%nat)
  /\ Hydro.dehydrateStatsTable
       (Js.JObj [("hp", Js.JNum 31); ("atk", Js.JNum 0); ("def", Js.JNum 31);
                 ("spa", Js.JNum 31); ("spd", Js.JNum 31); ("spe", Js.JNum 31)]) "/"
     = "31/0/31/31/31/31".
Proof.
  split; [reflexivity|].
  split; [intros k; apply dehydrateValue_nullish|].
  split; [intros k; apply dehydrateValue_unconvertible|].
  split; [|reflexivity].
  intros Hnum.
  change (Hydro.dehydrateStatsTable value "/") with
    (Hydro.dehydrateValue (Js.getProp value "hp") ++ "/" ++
     Hydro.dehydrateValue (Js.getProp value "atk") ++ "/" ++
     Hydro.dehydrateValue (Js.getProp value "def") ++ "/" ++
     Hydro.dehydrateValue (Js.getProp value "spa") ++ "/" ++
     Hydro.dehydrateValue (Js.getProp value "spd") ++ "/" ++
     Hydro.dehydrateValue (Js.getProp value "spe")).
  rewrite !countChar_app.
  rewrite !dehydrateValue_no_slash by (apply Hnum; unfold Hydro.statKeys; set_solver).
  reflexivity.
Qed.

Lemma dehydrateStatsTable_six_slots_witness :
  Js.countChar "/"
    (Hydro.dehydrateStatsTable (Js.JObj [("hp", Js.JNum 31); ("spe", Js.JNum (-7))]) "/")
  = 5%nat.
Proof.
  apply (dehydrateStatsTable_six_slots
           (Js.JObj [("hp", Js.JNum 31); ("spe", Js.JNum (-7))])).
  intros k Hk. unfold Hydro.statKeys in Hk.
  repeat (apply elem_of_cons in Hk as [->|Hk]; [reflexivity|]).
  inversion Hk.
Defined.

(** What [dehydrateArray] answers outside of arrays: [undefined]. *)
Lemma dehydrateArray_not_array (v : Js.JsValue) (delimiter : string) :
  Js.isArray v = false -> Hydro.dehydrateArray v delimiter = None.
Proof. destruct v; simpl; intros; congruence. Qed.




(** ** The matchup adapter *)

Section AdapterFacts.
Import Js Calc.
Context `{Imports}.

Lemma mapM_toggleId_returns (doubles : bool) (l : list string) :
  Forall (fun a => is_Some (formatId (Some a))) l ->
  exists ids, mapM (toggleId doubles) l = Return ids.
Proof.
  induction 1 as [|a l [id Ha] _ [ids IH]].
  - exists []. reflexivity.
  - assert (exists y, toggleId doubles a = Return y) as [y Hy]
      by (unfold toggleId; rewrite Ha; eexists; reflexivity).
    cbn [mapM]. rewrite Hy, IH.
    eexists. reflexivity.
Qed.

Lemma pseudoToggleAbility_returns (doubles : bool) (abilityId : option string) :
  Forall (fun a => is_Some (formatId (Some a))) PokemonToggleAbilities ->
  exists b, pseudoToggleAbility doubles abilityId = Return b.
Proof.
  intros Hall. unfold pseudoToggleAbility.
  destruct (truthyStr abilityId); [|eexists; reflexivity].
  destruct (mapM_toggleId_returns doubles _ Hall) as [ids ->].
  eexists. reflexivity.
Qed.

(** On ready inputs the adapter returns an options record, and this is
    what each entry holds. *)
Lemma createSmogonPokemon_ready format pokemon moveName opponentPokemon field :
  ready format pokemon ->
  exists gen pseudoToggle o,
    detectGenFromFormat format = Some gen /\ (1 <= gen)%Z
    /\ createSmogonPokemon format (Some pokemon) moveName opponentPokemon field
       = Return (Some o)
    /\ Options.status o = resolveStatus pokemon
    /\ Options.alliesFainted o = resolveAlliesFainted pokemon moveName
    /\ Options.item o = resolveItem gen pokemon
    /\ Options.ability o
       = abilitySent (detectLegacyGen (FmtGen gen)) pseudoToggle pokemon opponentPokemon
    /\ resolveTypes pokemon = Return (Options.types o)
    /\ Options.ivs o
       = (let ivs := resolveIvs (if detectLegacyGen (FmtGen gen) then 30 else 31) pokemon in
          if detectLegacyGen (FmtGen gen)
          then {| Stats.hp := Stats.hp ivs; Stats.atk := Stats.atk ivs;
                  Stats.def := Stats.def ivs; Stats.spa := Stats.spa ivs;
                  Stats.spd := Stats.spa ivs; Stats.spe := Stats.spe ivs |}
          else ivs)
    /\ Options.evs o
       = (let evs := resolveEvs (if detectLegacyGen (FmtGen gen) then 252 else 0) pokemon in
          if (gen =? 1)%Z
          then {| Stats.hp := Stats.hp evs; Stats.atk := Stats.atk evs;
                  Stats.def := Stats.def evs; Stats.spa := Stats.spa evs;
                  Stats.spd := Stats.spa evs; Stats.spe := Stats.spe evs |}
          else evs)
    /\ Options.boosts o
       = (let boosts := resolveBoosts pokemon in
          if (gen =? 1)%Z
          then {| Boosts.atk := Boosts.atk boosts; Boosts.def := Boosts.def boosts;
                  Boosts.spa := Boosts.spa boosts; Boosts.spd := Boosts.spa boosts;
                  Boosts.spe := Boosts.spe boosts |}
          else boosts)
    /\ Options.baseStats o = baseStatsSent gen pokemon.
Proof.
  intros ([dex Hdex] & (gen & Hgen & Hge) & Hid & Hsp & Htog & [v Hv] & [tys Hty] & Htr).
  destruct (pseudoToggleAbility_returns (isDoubles field)
              (formatId (resolveAbility (detectLegacyGen (FmtGen gen)) pokemon)) Htog)
    as [pt Hpt].
  exists gen, pt.
  unfold createSmogonPokemon. rewrite Hdex, Hgen, Hid, Hsp.
  replace (gen <? 1)%Z with false by lia.
  cbn [negb orb]. rewrite Hpt. cbn [mbind completion_bind]. rewrite Hv.
  unfold resolveTypes. rewrite Hty. cbn [mbind completion_bind].
  unfold baseStatsSent, transformBaseStats.
  destruct (truthyStr (Pokemon.transformedForme pokemon)) eqn:Htf.
  - destruct (Htr eq_refl) as [bs Hbs]. rewrite Hbs. cbn [mbind completion_bind].
    eexists. repeat split; try reflexivity; assumption.
  - cbn [mbind completion_bind].
    eexists. repeat split; try reflexivity; assumption.
Qed.

Lemma baseStat_insert_eq (m : gmap string (option Z)) k v :
  baseStat (<[k := v]> m) k = v.
Proof. unfold baseStat. rewrite lookup_insert_eq. reflexivity. Qed.

Lemma baseStat_insert_ne (m : gmap string (option Z)) k k' v :
  k <> k' -> baseStat (<[k := v]> m) k' = baseStat m k'.
Proof. intros Hne. unfold baseStat. rewrite lookup_insert_ne by exact Hne. reflexivity. Qed.

Lemma baseStat_default (t : option (gmap string (option Z))) k :
  baseStat (default ∅ t) k = stat t k.
Proof. destruct t as [m|]; [reflexivity|]. unfold baseStat. cbn. rewrite lookup_empty. reflexivity. Qed.

Lemma coupleSpecial_spd (m : gmap string (option Z)) :
  baseStat (coupleSpecial m) "spd" = baseStat (coupleSpecial m) "spa".
Proof.
  unfold coupleSpecial. case_bool_decide as Heq; [exact Heq|].
  rewrite baseStat_insert_eq, baseStat_insert_ne by discriminate. reflexivity.
Qed.

Lemma powerTrick_other pokemon (m : gmap string (option Z)) k :
  k <> "atk" -> k <> "def" -> baseStat (powerTrick pokemon m) k = baseStat m k.
Proof.
  intros Ha Hd. unfold powerTrick. destruct (powerTrickActive pokemon); [|reflexivity].
  rewrite !baseStat_insert_ne by congruence. reflexivity.
Qed.

(** What holds of the special stats in generation 1: the IV, EV and boost
    of special defense are those of special attack, and so is the base
    stat of a combatant that has not transformed. *)
Lemma gen1_special_coupling format pokemon moveName opponentPokemon field :
  ready format pokemon ->
  detectGenFromFormat format = Some 1%Z ->
  detectLegacyGen (FmtGen 1) = true ->
  exists o,
    createSmogonPokemon format (Some pokemon) moveName opponentPokemon field
    = Return (Some o)
    /\ Stats.spd (Options.ivs o) = Stats.spa (Options.ivs o)
    /\ Stats.spd (Options.evs o) = Stats.spa (Options.evs o)
    /\ Boosts.spd (Options.boosts o) = Boosts.spa (Options.boosts o)
    /\ (truthyStr (Pokemon.transformedForme pokemon) = false ->
        baseStat (Options.baseStats o) "spd" = baseStat (Options.baseStats o) "spa").
Proof.
  intros Hready Hgen Hlegacy.
  destruct (createSmogonPokemon_ready format pokemon moveName opponentPokemon field Hready)
    as (gen & pt & o & Hgen' & _ & Hrun & _ & _ & _ & _ & _ & Hivs & Hevs & Hboosts & Hbs).
  rewrite Hgen in Hgen'. injection Hgen' as <-.
  exists o. split; [exact Hrun|].
  rewrite Hivs, Hevs, Hboosts, Hbs, Hlegacy. cbn.
  repeat split. intros Htf. unfold baseStatsSent. rewrite Htf. cbn.
  rewrite !powerTrick_other by discriminate. apply coupleSpecial_spd.
Qed.








End AdapterFacts.

Import Js Calc.

(** C5.  The adapter returns no result, and does not throw, when the
    generation cannot be determined from the format (no generation, a
    generation below 1, or no dex for it), when the combatant is absent,
    and when the combatant has no [speciesForme] or no [calcdexId]. *)
Theorem createSmogonPokemon_no_result `{Imports} format pokemon moveName opponentPokemon field :
  detectGenFromFormat format = None
  \/ (exists gen, detectGenFromFormat format = Some gen /\ (gen < 1)%Z)
  \/ getGenDexForFormat format = None
  \/ pokemon = None
  \/ (exists p, pokemon = Some p
        /\ (truthyStr (Pokemon.speciesForme p) = false
            \/ truthyStr (Pokemon.calcdexId p) = false)) ->
  createSmogonPokemon format pokemon moveName opponentPokemon field = Return None.
Proof.
  intros Hcase. unfold createSmogonPokemon.
  destruct (getGenDexForFormat format) as [dex|]; [|reflexivity].
  destruct (detectGenFromFormat format) as [gen|]; [|reflexivity].
  destruct pokemon as [p|]; [|reflexivity].
  destruct Hcase as [Hc|[(g & Hg & Hlt)|[Hc|[Hc|(p' & Hp & Hc)]]]]; try discriminate.
  - injection Hg as <-. replace (gen <? 1)%Z with true by lia. reflexivity.
  - injection Hp as <-. destruct Hc as [-> | ->];
      destruct (gen <? 1)%Z; cbn [negb orb];
      rewrite ?orb_true_r; reflexivity.
Qed.



Lemma createSmogonPokemon_no_result_witness :
  createSmogonPokemon (H := Reference.showdex)
    "ou" (Some Reference.blank) None None None = Return None.
Proof.
  apply createSmogonPokemon_no_result. left. reflexivity.
Defined.

(** C2, as stated, fails: a transformed combatant that carries the
    [powertrick] volatile is sent the defense of the transformed forme as
    its attack. *)
Lemma transformed_powertrick_counterexample :
  exists o,
    createSmogonPokemon (H := Reference.showdex)
      "gen4ou" (Some Reference.dittoPowerTrick) None None None = Return (Some o)
    /\ truthyStr (Pokemon.transformedForme Reference.dittoPowerTrick) = true
    /\ stat (Pokemon.transformedBaseStats Reference.dittoPowerTrick) "atk" = Some 10%Z
    /\ baseStat (Options.baseStats o) "atk" = Some 230%Z
    /\ baseStat (Options.baseStats o) "atk"
       <> stat (Pokemon.transformedBaseStats Reference.dittoPowerTrick) "atk".
Proof.
  eexists. split; [vm_compute; reflexivity|].
  repeat split; try (vm_compute; reflexivity).
  vm_compute. discriminate.
Qed.

(** C2, amended.  For a combatant with a non-empty [transformedForme] the
    base-stat table sent to the engine has the HP of the combatant's own
    [baseStats] and the special attack, special defense and speed of
    [transformedBaseStats]; its attack and defense are those of
    [transformedBaseStats] as well, unless the combatant carries the
    [powertrick] volatile, in which case the two are exchanged. *)
Theorem transformed_baseStats `{Imports} format pokemon moveName opponentPokemon field :
  ready format pokemon ->
  truthyStr (Pokemon.transformedForme pokemon) = true ->
  exists o,
    createSmogonPokemon format (Some pokemon) moveName opponentPokemon field
    = Return (Some o)
    /\ baseStat (Options.baseStats o) "hp" = stat (Pokemon.baseStats pokemon) "hp"
    /\ (forall k, k ∈ ["spa"; "spd"; "spe"] ->
          baseStat (Options.baseStats o) k
          = stat (Pokemon.transformedBaseStats pokemon) k)
    /\ (powerTrickActive pokemon = false ->
          baseStat (Options.baseStats o) "atk"
          = stat (Pokemon.transformedBaseStats pokemon) "atk"
          /\ baseStat (Options.baseStats o) "def"
             = stat (Pokemon.transformedBaseStats pokemon) "def")
    /\ (powerTrickActive pokemon = true ->
          baseStat (Options.baseStats o) "atk"
          = stat (Pokemon.transformedBaseStats pokemon) "def"
          /\ baseStat (Options.baseStats o) "def"
             = stat (Pokemon.transformedBaseStats pokemon) "atk").
Proof.
  intros Hready Htf.
  destruct (createSmogonPokemon_ready format pokemon moveName opponentPokemon field Hready)
    as (gen & pt & o & _ & _ & Hrun & _ & _ & _ & _ & _ & _ & _ & _ & Hbs).
  exists o. split; [exact Hrun|]. rewrite Hbs. unfold baseStatsSent. rewrite Htf.
  split; [|split; [|split]].
  - rewrite powerTrick_other by discriminate. apply baseStat_insert_eq.
  - intros k Hk.
    assert (k <> "atk" /\ k <> "def" /\ k <> "hp") as (Ha & Hd & Hh).
    { repeat (apply elem_of_cons in Hk as [->|Hk]; [repeat split; discriminate|]).
      inversion Hk. }
    rewrite powerTrick_other by assumption.
    rewrite baseStat_insert_ne by congruence. apply baseStat_default.
  - intros Hpt. unfold powerTrick. rewrite Hpt.
    rewrite !baseStat_insert_ne by discriminate. rewrite !baseStat_default. auto.
  - intros Hpt. unfold powerTrick. rewrite Hpt. split.
    + rewrite baseStat_insert_ne, baseStat_insert_eq by discriminate.
      rewrite baseStat_insert_ne by discriminate. apply baseStat_default.
    + rewrite baseStat_insert_eq.
      rewrite baseStat_insert_ne by discriminate. apply baseStat_default.
Qed.

Lemma transformed_baseStats_witness :
  exists o,
    createSmogonPokemon (H := Reference.showdex)
      "gen4ou" (Some Reference.dittoPowerTrick) None None None = Return (Some o)
    /\ baseStat (Options.baseStats o) "hp" = Some 48%Z.
Proof.
  destruct (transformed_baseStats (H := Reference.showdex)
              "gen4ou" Reference.dittoPowerTrick None None None)
    as (o & Hrun & Hhp & _).
  - ready_by_evaluation.
  - reflexivity.
  - exists o. split; [exact Hrun|]. rewrite Hhp. reflexivity.
Defined.

(** C3.  The adapter evaluated at generation 1 on a transformed combatant
    whose [transformedBaseStats] holds two different special stats: the
    table sent to the engine keeps them apart. *)
Lemma gen1_transformed_special_split :
  exists o,
    createSmogonPokemon (H := Reference.showdex)
      "gen1ou" (Some Reference.dittoGen1) None None None = Return (Some o)
    /\ baseStat (Options.baseStats o) "spa" = Some 135%Z
    /\ baseStat (Options.baseStats o) "spd" = Some 85%Z.
Proof.
  eexists. split; [vm_compute; reflexivity|].
  split; vm_compute; reflexivity.
Qed.



(** C8, as stated, fails: for a Protean user whose type was edited to
    Poison and that carries no [typechange] volatile, the edited type is
    what the adapter sends, not the original Water and Dark, whether the
    [abilityToggled] flag is set or not. *)
Lemma protean_types_counterexample :
  abilityIdentity (H := Reference.showdex) (Reference.greninja false) = Some "protean"
  /\ Pokemon.volatiles (Reference.greninja false) ≫= (fun v => v !! "typechange") = None
  /\ Pokemon.types (Reference.greninja false) = Some ["Water"; "Dark"]
  /\ Pokemon.dirtyTypes (Reference.greninja false) = Some ["Poison"]
  /\ (exists o,
        createSmogonPokemon (H := Reference.showdex)
          "gen9ou" (Some (Reference.greninja false)) None None None = Return (Some o)
        /\ Options.types o = [Some "Poison"; None]
        /\ Options.ability o = Some "Pressure")
  /\ (exists o,
        createSmogonPokemon (H := Reference.showdex)
          "gen9ou" (Some (Reference.greninja true)) None None None = Return (Some o)
        /\ Options.types o = [Some "Poison"; None]
        /\ Options.ability o = Some "Protean").
Proof.
  repeat split; try (vm_compute; reflexivity);
    eexists; (split; [vm_compute; reflexivity|]); split; vm_compute; reflexivity.
Qed.

(** C8, amended.  For a combatant whose resolved ability identity is
    [protean] or [libero] and whose [abilityToggled] flag is not set, the
    adapter sends the placeholder ability [Pressure] in place of the
    ability; an edited type (a non-empty [dirtyTypes]) is sent as the
    combatant's types, cut to two entries, whatever the ability is. *)
Theorem protean_libero_neutralised `{Imports}
    format pokemon moveName opponentPokemon field :
  ready format pokemon ->
  exists gen o,
    detectGenFromFormat format = Some gen
    /\ createSmogonPokemon format (Some pokemon) moveName opponentPokemon field
       = Return (Some o)
    /\ (includesId ["protean"; "libero"]
          (formatId (resolveAbility (detectLegacyGen (FmtGen gen)) pokemon)) = true ->
        Pokemon.abilityToggled pokemon = false ->
        Options.ability o = Some "Pressure")
    /\ (forall l, Pokemon.dirtyTypes pokemon = Some l -> l <> [] ->
        Options.types o = take 2 (map Some l ++ [None; None])).
Proof.
  intros Hready.
  destruct (createSmogonPokemon_ready format pokemon moveName opponentPokemon field Hready)
    as (gen & pt & o & Hgen & _ & Hrun & _ & _ & _ & Hab & Hty & _).
  exists gen, o. repeat split; try assumption.
  - intros Hid Htog. rewrite Hab. unfold abilitySent. rewrite Hid, Htog.
    destruct (ruinCancelled _ _ _); [reflexivity|].
    destruct (includesId ["intrepidsword"; "download"] _); reflexivity.
  - intros l Hl Hne. unfold resolveTypes in Hty. rewrite Hl in Hty.
    destruct l as [|x l]; [congruence|]. cbn [nonEmptyList] in Hty.
    injection Hty as <-. reflexivity.
Qed.

Lemma protean_libero_neutralised_witness :
  exists o,
    createSmogonPokemon (H := Reference.showdex)
      "gen9ou" (Some (Reference.greninja false)) None None None = Return (Some o)
    /\ Options.ability o = Some "Pressure"
    /\ Options.types o = [Some "Poison"; None].
Proof.
  destruct (protean_libero_neutralised (H := Reference.showdex)
              "gen9ou" (Reference.greninja false) None None None)
    as (gen & o & Hgen & Hrun & Hab & Hty).
  - ready_by_evaluation.
  - injection Hgen as <-. exists o. split; [exact Hrun|]. split.
    + apply Hab; reflexivity.
    + apply (Hty ["Poison"]); [reflexivity|discriminate].
Defined.




(** ** The preset matcher *)

Section PresetFacts.
Context `{Imports}.

Lemma movesMatch_spec (pokemonMoves presetMoves : option (list string)) :
  movesMatch pokemonMoves presetMoves = true <->
  exists a b, pokemonMoves = Some a /\ presetMoves = Some b
              /\ a <> [] /\ b <> [] /\ forall m, m ∈ b -> m ∈ a.
Proof.
  unfold movesMatch. split.
  - intros Hm. apply andb_prop in Hm as [Hm Hall]. apply andb_prop in Hm as [Ha Hb].
    destruct pokemonMoves as [[|x a]|]; try discriminate.
    destruct presetMoves as [[|y b]|]; try discriminate.
    exists (x :: a), (y :: b). repeat split; try discriminate.
    intros m Hin. cbn [default] in Hall.
    rewrite forallb_forall in Hall. apply list_elem_of_In in Hin.
    apply Hall in Hin. apply bool_decide_eq_true in Hin. exact Hin.
  - intros (a & b & -> & -> & Ha & Hb & Hsub).
    destruct a as [|x a]; [congruence|]. destruct b as [|y b]; [congruence|].
    cbn [nonEmptyList andb default]. apply forallb_forall. intros m Hin.
    apply bool_decide_eq_true. apply Hsub. apply list_elem_of_In. exact Hin.
Qed.

(** The conjunct on moves is necessary. *)
Lemma appliedPreset_movesMatch format pokemon preset :
  appliedPreset format (Some pokemon) (Some preset) = true ->
  movesMatch (Pokemon.moves pokemon) (Preset.moves preset) = true.
Proof.
  unfold appliedPreset.
  destruct (negb (truthyFormat format) || _ || _); [discriminate|].
  destruct (genOfFormat format) as [gen|]; [|discriminate].
  destruct (gen =? 0)%Z; [discriminate|].
  cbv zeta. intros Hall.
  repeat (apply andb_prop in Hall as [Hall ?]). assumption.
Qed.

(** The other conjuncts do not read the moves. *)
Lemma appliedPreset_withMoves format pokemon preset pokemonMoves presetMoves :
  movesMatch (Pokemon.moves pokemon) (Preset.moves preset)
  = movesMatch pokemonMoves presetMoves ->
  appliedPreset format (Some (withMoves pokemon pokemonMoves))
    (Some (presetWithMoves preset presetMoves))
  = appliedPreset format (Some pokemon) (Some preset).
Proof.
  intros Hsame. unfold appliedPreset. cbn [withMoves presetWithMoves
    Pokemon.speciesForme Pokemon.dirtyAbility Pokemon.ability Pokemon.dirtyItem
    Pokemon.prevItem Pokemon.item Pokemon.nature Pokemon.moves Pokemon.ivs Pokemon.evs
    Preset.source Preset.ability Preset.item Preset.nature Preset.moves Preset.ivs
    Preset.evs].
  rewrite Hsame. reflexivity.
Qed.

Lemma forallb_map_to_list (f : string * option Z -> bool) (m : gmap string (option Z)) :
  forallb f (map_to_list m) = true <-> forall k v, m !! k = Some v -> f (k, v) = true.
Proof.
  rewrite forallb_forall. split.
  - intros Hall k v Hk. apply Hall. apply list_elem_of_In.
    apply elem_of_map_to_list. exact Hk.
  - intros Hall [k v] Hin. apply Hall. apply elem_of_map_to_list.
    apply list_elem_of_In. exact Hin.
Qed.

(** In a legacy generation the entries [hp] and [spd] of the combatant's
    IVs pass the comparison whatever they hold. *)
Lemma ivs_legacy_skip defaultIv presetIvs (m : gmap string (option Z)) hp spd :
  forallb (ivMatches true defaultIv presetIvs)
    (map_to_list (<["hp" := hp]> (<["spd" := spd]> m)))
  = forallb (ivMatches true defaultIv presetIvs) (map_to_list m).
Proof.
  apply eq_iff_eq_true. rewrite !forallb_map_to_list.
  assert (Hskip : forall k v, k = "hp" \/ k = "spd" ->
                              ivMatches true defaultIv presetIvs (k, v) = true).
  { intros k v [-> | ->]; reflexivity. }
  split; intros Hall k v Hk.
  - destruct (decide (k = "hp")) as [Hhp|Hhp]; [apply Hskip; auto|].
    destruct (decide (k = "spd")) as [Hspd|Hspd]; [apply Hskip; auto|].
    apply Hall. rewrite !lookup_insert_ne by congruence. exact Hk.
  - destruct (decide (k = "hp")) as [Hhp|Hhp]; [apply Hskip; auto|].
    destruct (decide (k = "spd")) as [Hspd|Hspd]; [apply Hskip; auto|].
    apply Hall. rewrite !lookup_insert_ne in Hk by congruence. exact Hk.
Qed.

(** In a legacy generation neither the entries [hp] and [spd] of the
    combatant's IVs nor its EVs are read. *)
Lemma appliedPreset_withSpread_legacy format pokemon preset hp spd evs :
  detectLegacyGen format = true ->
  appliedPreset format
    (Some (withSpread pokemon
             (Some (<["hp" := hp]> (<["spd" := spd]> (default ∅ (Pokemon.ivs pokemon)))))
             evs))
    (Some preset)
  = appliedPreset format (Some pokemon) (Some preset).
Proof.
  intros Hlegacy. unfold appliedPreset. cbn [withSpread
    Pokemon.speciesForme Pokemon.dirtyAbility Pokemon.ability Pokemon.dirtyItem
    Pokemon.prevItem Pokemon.item Pokemon.nature Pokemon.moves Pokemon.ivs Pokemon.evs].
  rewrite Hlegacy. cbn [default from_option id orb]. rewrite ivs_legacy_skip. reflexivity.
Qed.

End PresetFacts.

(** C6.  [appliedPreset] treats moves in one direction.  A match requires
    both lists of moves to be non-empty and every move of the preset to be
    among the combatant's; and a match is kept when the two lists are
    replaced by any others of which the preset's is non-empty and
    contained in the combatant's, so that further moves of the combatant,
    and the order of either list, do not matter. *)
Theorem appliedPreset_moves_subset `{Imports} format pokemon preset :
  appliedPreset format (Some pokemon) (Some preset) = true ->
  (exists pokemonMoves presetMoves,
     Pokemon.moves pokemon = Some pokemonMoves
     /\ Preset.moves preset = Some presetMoves
     /\ pokemonMoves <> [] /\ presetMoves <> []
     /\ forall m, m ∈ presetMoves -> m ∈ pokemonMoves)
  /\ (forall pokemonMoves presetMoves,
        presetMoves <> [] ->
        (forall m, m ∈ presetMoves -> m ∈ pokemonMoves) ->
        appliedPreset format (Some (withMoves pokemon (Some pokemonMoves)))
          (Some (presetWithMoves preset (Some presetMoves))) = true).
Proof.
  intros Happlied.
  pose proof (appliedPreset_movesMatch format pokemon preset Happlied) as Hmoves.
  split; [apply movesMatch_spec; exact Hmoves|].
  intros pokemonMoves presetMoves Hne Hsub.
  rewrite appliedPreset_withMoves; [exact Happlied|].
  rewrite Hmoves. symmetry. apply movesMatch_spec.
  exists pokemonMoves, presetMoves. repeat split; try assumption.
  destruct presetMoves as [|m r]; [congruence|].
  intros ->. specialize (Hsub m). rewrite elem_of_cons in Hsub.
  specialize (Hsub (or_introl eq_refl)). inversion Hsub.
Qed.

Lemma appliedPreset_moves_subset_witness :
  appliedPreset (H := Reference.showdex) (FmtStr "gen9ou")
    (Some (withMoves Reference.garganacl
             (Some ["Stealth Rock"; "Body Press"; "Salt Cure"; "Recover"])))
    (Some (presetWithMoves Reference.garganaclPreset (Some ["Salt Cure"; "Recover"])))
  = true.
Proof.
  apply (appliedPreset_moves_subset (H := Reference.showdex)
           (FmtStr "gen9ou") Reference.garganacl Reference.garganaclPreset).
  - vm_compute. reflexivity.
  - discriminate.
  - intros m Hm. repeat (apply elem_of_cons in Hm as [->|Hm]; [set_solver|]).
    inversion Hm.
Defined.

(** C7, as stated, fails: in generation 1 the combatant's HP IV is 0 and
    the preset's is the default 30, and the preset is applied all the
    same: the HP entry is skipped as well. *)
Lemma appliedPreset_hp_counterexample :
  appliedPreset (H := Reference.showdex) (FmtStr "gen1ou")
    (Some Reference.snorlax) (Some Reference.snorlaxPreset) = true
  /\ detectLegacyGen (Imports := Reference.showdex) (FmtStr "gen1ou") = true
  /\ stat (Pokemon.ivs Reference.snorlax) "hp" = Some 0%Z
  /\ default 30%Z (stat (Preset.ivs Reference.snorlaxPreset) "hp") = 30%Z.
Proof. repeat split; vm_compute; reflexivity. Qed.

(** C7, amended.  When [appliedPreset] holds, every IV entry of the
    combatant equals the preset's IV of that stat, a missing one counting
    as 30 in a legacy generation and as 31 otherwise, except that in a
    legacy generation the entries [hp] and [spd] are both skipped; and
    outside of legacy generations every EV entry of the combatant equals
    the preset's EV of that stat, a missing one counting as 0.  In a
    legacy generation the result does not depend on the [hp] and [spd]
    IVs of the combatant, nor on its EVs. *)
Theorem appliedPreset_spread `{Imports} format pokemon preset :
  appliedPreset format (Some pokemon) (Some preset) = true ->
  (forall k v, default ∅ (Pokemon.ivs pokemon) !! k = Some v ->
     (detectLegacyGen format = true /\ (k = "hp" \/ k = "spd"))
     \/ v = Some (default (if detectLegacyGen format then 30%Z else 31%Z)
                    (stat (Preset.ivs preset) k)))
  /\ (detectLegacyGen format = false ->
      forall k v, default ∅ (Pokemon.evs pokemon) !! k = Some v ->
        v = Some (default 0%Z (stat (Preset.evs preset) k)))
  /\ (detectLegacyGen format = true ->
      forall hp spd evs,
        appliedPreset format
          (Some (withSpread pokemon
                   (Some (<["hp" := hp]>
                            (<["spd" := spd]> (default ∅ (Pokemon.ivs pokemon)))))
                   evs))
          (Some preset) = true).
Proof.
  intros Happlied. split; [|split].
  - intros k v Hk. revert Happlied. unfold appliedPreset.
    destruct (negb (truthyFormat format) || _ || _); [discriminate|].
    destruct (genOfFormat format) as [gen|]; [|discriminate].
    destruct (gen =? 0)%Z; [discriminate|].
    cbv zeta. intros Hall.
    apply andb_prop in Hall as [Hall _]. apply andb_prop in Hall as [_ Hivs].
    rewrite forallb_map_to_list in Hivs. specialize (Hivs k v Hk).
    unfold ivMatches in Hivs. cbn [fst snd] in Hivs.
    apply orb_prop in Hivs as [Hskip|Heq].
    + left. apply andb_prop in Hskip as [Hlegacy Hin].
      split; [exact Hlegacy|].
      apply bool_decide_eq_true in Hin.
      apply elem_of_cons in Hin as [->|Hin]; [left; reflexivity|].
      apply elem_of_cons in Hin as [->|Hin]; [right; reflexivity|].
      inversion Hin.
    + right. apply bool_decide_eq_true in Heq. exact Heq.
  - intros Hlegacy k v Hk. revert Happlied. unfold appliedPreset.
    destruct (negb (truthyFormat format) || _ || _); [discriminate|].
    destruct (genOfFormat format) as [gen|]; [|discriminate].
    destruct (gen =? 0)%Z; [discriminate|].
    cbv zeta. rewrite Hlegacy. cbn [orb]. intros Hall.
    apply andb_prop in Hall as [_ Hevs].
    rewrite forallb_map_to_list in Hevs. specialize (Hevs k v Hk).
    unfold evMatches, presetEv in Hevs. cbn [fst snd] in Hevs.
    apply bool_decide_eq_true in Hevs. exact Hevs.
  - intros Hlegacy hp spd evs.
    rewrite appliedPreset_withSpread_legacy by exact Hlegacy. exact Happlied.
Qed.

Lemma appliedPreset_spread_witness :
  appliedPreset (H := Reference.showdex) (FmtStr "gen1ou")
    (Some (withSpread Reference.snorlax
             (Some (<["hp" := Some 7%Z]>
                      (<["spd" := None]> (default ∅ (Pokemon.ivs Reference.snorlax)))))
             None))
    (Some Reference.snorlaxPreset) = true.
Proof.
  apply (appliedPreset_spread (H := Reference.showdex)
           (FmtStr "gen1ou") Reference.snorlax Reference.snorlaxPreset).
  - vm_compute. reflexivity.
  - vm_compute. reflexivity.
Defined.

(** ** Further properties of the hydration codec *)

Section HydroMore.
Import Js Hydro.

(** The characters the codec gives a meaning to do not occur in the text
    of a number. *)
Lemma countChar_uint_special (c : ascii) (d : Decimal.uint) :
  c ∈ ["/"; ","; ";"; "|"; "?"; "="]%char ->
  countChar c (NilEmpty.string_of_uint d) = 0%nat.
Proof.
  intros Hc.
  induction d; cbn [NilEmpty.string_of_uint countChar]; try rewrite IHd; try reflexivity;
    repeat (apply elem_of_cons in Hc as [->|Hc]; [reflexivity|]); inversion Hc.
Qed.

Lemma countChar_nilzero_special (c : ascii) (d : Decimal.uint) :
  c ∈ ["/"; ","; ";"; "|"; "?"; "="]%char ->
  countChar c (NilZero.string_of_uint d) = 0%nat.
Proof.
  intros Hc. destruct d; try apply (countChar_uint_special c _ Hc).
  repeat (apply elem_of_cons in Hc as [->|Hc]; [reflexivity|]); inversion Hc.
Qed.

Lemma countChar_numberToString_special (c : ascii) (n : Z) :
  c ∈ ["/"; ","; ";"; "|"; "?"; "="]%char ->
  countChar c (numberToString n) = 0%nat.
Proof.
  intros Hc. unfold numberToString, NilZero.string_of_int.
  destruct (Z.to_int n) as [d|d]; [apply countChar_nilzero_special; exact Hc|].
  cbn [countChar]. rewrite countChar_nilzero_special by exact Hc.
  repeat (apply elem_of_cons in Hc as [->|Hc]; [reflexivity|]); inversion Hc.
Qed.

Lemma numberToString_nonempty (n : Z) : numberToString n <> "".
Proof.
  unfold numberToString, NilZero.string_of_int, NilZero.string_of_uint.
  destruct (Z.to_int n) as [d|d]; destruct d; discriminate.
Qed.

(** Reading the text of a number back. *)
Lemma numberToString_read (n : Z) :
  Z.of_int <$> NilZero.int_of_string (numberToString n) = Some n.
Proof.
  unfold numberToString.
  destruct (Z.to_int n) as [d|d] eqn:E; destruct d;
    first [ rewrite NilZero.isi_posnil
          | rewrite NilZero.isi_negnil
          | rewrite NilZero.isi by discriminate ];
    cbn [fmap option_fmap option_map];
    rewrite <- (DecimalZ.of_to n), E; reflexivity.
Qed.

Lemma numberToString_inj (n m : Z) : numberToString n = numberToString m -> n = m.
Proof.
  intros Heq. pose proof (numberToString_read n) as Hn.
  rewrite Heq, numberToString_read in Hn. congruence.
Qed.

Lemma isDelimiter_elem (c : ascii) :
  isDelimiter c = true -> c ∈ ["/"; ","; ";"; "|"; "?"; "="]%char.
Proof.
  unfold isDelimiter. intros Hc.
  apply orb_prop in Hc as [Hc|Hc]; [apply orb_prop in Hc as [Hc|Hc]|];
    apply Ascii.eqb_eq in Hc; subst c; repeat constructor.
Qed.

Lemma stripDelimiters_clean (s : string) :
  (forall c, isDelimiter c = true -> countChar c s = 0%nat) ->
  stripDelimiters s = s.
Proof.
  induction s as [|x s IH]; intros Hclean; [reflexivity|].
  cbn [stripDelimiters]. destruct (isDelimiter x) eqn:Hx.
  - specialize (Hclean x Hx). cbn [countChar] in Hclean.
    rewrite Ascii.eqb_refl in Hclean. discriminate Hclean.
  - rewrite IH; [reflexivity|]. intros c Hc. specialize (Hclean c Hc).
    cbn [countChar] in Hclean. lia.
Qed.

Lemma countChar_stripDelimiters (c : ascii) (s : string) :
  isDelimiter c = true -> countChar c (stripDelimiters s) = 0%nat.
Proof.
  intros Hc. induction s as [|x s IH]; [reflexivity|].
  cbn [stripDelimiters]. destruct (isDelimiter x) eqn:Hx; [exact IH|].
  cbn [countChar]. rewrite IH.
  destruct (Ascii.eqb c x) eqn:Hcx; [|reflexivity].
  apply Ascii.eqb_eq in Hcx. congruence.
Qed.

Lemma dehydrateValue_number (n : Z) : dehydrateValue (JNum n) = numberToString n.
Proof.
  cbn [dehydrateValue toString].
  rewrite stripDelimiters_clean.
  - pose proof (numberToString_nonempty n). destruct (numberToString n); [congruence|reflexivity].
  - intros c Hc. apply countChar_numberToString_special, isDelimiter_elem, Hc.
Qed.

Lemma countChar_dehydrateValue_delimiter (c : ascii) (v : JsValue) :
  isDelimiter c = true -> countChar c (dehydrateValue v) = 0%nat.
Proof.
  intros Hc.
  assert (Hq : countChar c "?" = 0%nat).
  { unfold isDelimiter in Hc.
    apply orb_prop in Hc as [Hc|Hc]; [apply orb_prop in Hc as [Hc|Hc]|];
      apply Ascii.eqb_eq in Hc; subst c; reflexivity. }
  assert (Hyn : countChar c "y" = 0%nat /\ countChar c "n" = 0%nat).
  { unfold isDelimiter in Hc.
    apply orb_prop in Hc as [Hc|Hc]; [apply orb_prop in Hc as [Hc|Hc]|];
      apply Ascii.eqb_eq in Hc; subst c; split; reflexivity. }
  assert (Hplace : forall s, countChar c (orPlaceholder (stripDelimiters s)) = 0%nat).
  { intros s. pose proof (countChar_stripDelimiters c s Hc) as Hs.
    destruct (stripDelimiters s); [exact Hq|exact Hs]. }
  destruct v as [| |b|n|s|l|kvs]; try exact Hq.
  - unfold dehydrateValue, dehydrateBoolean. destruct (truthy (JBool b)); apply Hyn.
  - apply Hplace.
  - apply Hplace.
  - unfold dehydrateValue. destruct (toString (JArr l)); [apply Hplace|exact Hq].
  - apply Hplace.
Qed.

Lemma dehydrateValue_nonempty (v : JsValue) : dehydrateValue v <> "".
Proof.
  assert (Hplace : forall s, orPlaceholder s <> "").
  { intros s. destruct s; discriminate. }
  destruct v as [| |b|n|s|l|kvs]; try discriminate; try apply Hplace.
  destruct b; discriminate.
Qed.

(** X1.  Whatever the value, the text [dehydrateValue] writes is not
    empty and holds none of the three characters [,], [;] and [|]. *)
Theorem dehydrateValue_clean (v : JsValue) :
  dehydrateValue v <> ""
  /\ countChar "," (dehydrateValue v) = 0%nat
  /\ countChar ";" (dehydrateValue v) = 0%nat
  /\ countChar "|" (dehydrateValue v) = 0%nat.
Proof.
  split; [apply dehydrateValue_nonempty|].
  repeat split; apply countChar_dehydrateValue_delimiter; reflexivity.
Qed.

(** Cutting a text at its first separator. *)
Lemma split_at_separator (c : ascii) (a a' r r' : string) :
  countChar c a = 0%nat -> countChar c a' = 0%nat ->
  a ++ String c r = a' ++ String c r' -> a = a' /\ r = r'.
Proof.
  revert a'. induction a as [|x a IH]; intros [|x' a'] Ha Ha' Heq; cbn in *.
  - injection Heq as ->. split; reflexivity.
  - injection Heq as <- _. rewrite Ascii.eqb_refl in Ha'. discriminate Ha'.
  - injection Heq as -> _. rewrite Ascii.eqb_refl in Ha. discriminate Ha.
  - injection Heq as <- Heq.
    destruct (Ascii.eqb c x); [discriminate Ha|].
    destruct (IH a' Ha Ha' Heq) as [-> ->]. split; reflexivity.
Qed.

Lemma dehydrateValue_stat_slash (v : JsValue) :
  numberOrNullish v = true -> countChar "/" (dehydrateValue v) = 0%nat.
Proof.
  destruct v; try discriminate; intros _; try reflexivity.
  rewrite dehydrateValue_number. apply countChar_numberToString_special. repeat constructor.
Qed.

Lemma dehydrateValue_stat_inj (v w : JsValue) (n : Z) :
  numberOrNullish v = true -> numberOrNullish w = true ->
  dehydrateValue v = dehydrateValue w ->
  v = JNum n -> w = JNum n.
Proof.
  intros Hv Hw Heq ->. rewrite dehydrateValue_number in Heq.
  assert (Hq : numberToString n <> "?").
  { intros Hbad. pose proof (countChar_numberToString_special "?" n) as Hc.
    rewrite Hbad in Hc. specialize (Hc ltac:(repeat constructor)). discriminate Hc. }
  destruct w as [| |b|m|s|l|kvs]; try discriminate; try (cbn in Heq; congruence).
  rewrite dehydrateValue_number in Heq. f_equal. symmetry.
  apply numberToString_inj. exact Heq.
Qed.

(** X2.  On tables whose six stats are numbers or absent,
    [dehydrateStatsTable] with the default delimiter loses nothing but
    the difference between [null] and [undefined]: two tables with the
    same text hold the same number, or no number, under each stat. *)
Theorem dehydrateStatsTable_injective (t1 t2 : JsValue) :
  (forall k, k ∈ statKeys -> numberOrNullish (getProp t1 k) = true) ->
  (forall k, k ∈ statKeys -> numberOrNullish (getProp t2 k) = true) ->
  dehydrateStatsTable t1 "/" = dehydrateStatsTable t2 "/" ->
  forall k n, k ∈ statKeys -> getProp t1 k = JNum n <-> getProp t2 k = JNum n.
Proof.
  intros H1 H2 Heq.
  assert (Hslots : forall k, k ∈ statKeys ->
            dehydrateValue (getProp t1 k) = dehydrateValue (getProp t2 k)).
  { change (dehydrateStatsTable t1 "/") with
      (dehydrateValue (getProp t1 "hp") ++ String "/" (
       dehydrateValue (getProp t1 "atk") ++ String "/" (
       dehydrateValue (getProp t1 "def") ++ String "/" (
       dehydrateValue (getProp t1 "spa") ++ String "/" (
       dehydrateValue (getProp t1 "spd") ++ String "/" (
       dehydrateValue (getProp t1 "spe"))))))) in Heq.
    change (dehydrateStatsTable t2 "/") with
      (dehydrateValue (getProp t2 "hp") ++ String "/" (
       dehydrateValue (getProp t2 "atk") ++ String "/" (
       dehydrateValue (getProp t2 "def") ++ String "/" (
       dehydrateValue (getProp t2 "spa") ++ String "/" (
       dehydrateValue (getProp t2 "spd") ++ String "/" (
       dehydrateValue (getProp t2 "spe"))))))) in Heq.
    assert (Hs1 : forall k, k ∈ statKeys ->
              countChar "/" (dehydrateValue (getProp t1 k)) = 0%nat)
      by (intros k Hk; apply dehydrateValue_stat_slash; auto).
    assert (Hs2 : forall k, k ∈ statKeys ->
              countChar "/" (dehydrateValue (getProp t2 k)) = 0%nat)
      by (intros k Hk; apply dehydrateValue_stat_slash; auto).
    assert (Khp : "hp" ∈ statKeys) by (unfold statKeys; repeat constructor).
    assert (Katk : "atk" ∈ statKeys) by (unfold statKeys; repeat constructor).
    assert (Kdef : "def" ∈ statKeys) by (unfold statKeys; repeat constructor).
    assert (Kspa : "spa" ∈ statKeys) by (unfold statKeys; repeat constructor).
    assert (Kspd : "spd" ∈ statKeys) by (unfold statKeys; repeat constructor).
    destruct (split_at_separator "/" _ _ _ _ (Hs1 _ Khp) (Hs2 _ Khp) Heq) as [Ehp Heq1].
    destruct (split_at_separator "/" _ _ _ _ (Hs1 _ Katk) (Hs2 _ Katk) Heq1) as [Eatk Heq2].
    destruct (split_at_separator "/" _ _ _ _ (Hs1 _ Kdef) (Hs2 _ Kdef) Heq2) as [Edef Heq3].
    destruct (split_at_separator "/" _ _ _ _ (Hs1 _ Kspa) (Hs2 _ Kspa) Heq3) as [Espa Heq4].
    destruct (split_at_separator "/" _ _ _ _ (Hs1 _ Kspd) (Hs2 _ Kspd) Heq4) as [Espd Espe].
    intros k Hk. unfold statKeys in Hk.
    repeat (apply elem_of_cons in Hk as [->|Hk]; [assumption|]). inversion Hk. }
  intros k n Hk. split; intros Hn.
  - apply (dehydrateValue_stat_inj (getProp t1 k) (getProp t2 k) n); auto.
  - apply (dehydrateValue_stat_inj (getProp t2 k) (getProp t1 k) n); auto.
    symmetry. auto.
Qed.

Lemma dehydrateStatsTable_injective_witness :
  getProp (JObj [("hp", JNum 31); ("atk", JNull)]) "hp" = JNum 31
  <-> getProp (JObj [("spe", JUndefined); ("hp", JNum 31)]) "hp" = JNum 31.
Proof.
  apply (dehydrateStatsTable_injective
           (JObj [("hp", JNum 31); ("atk", JNull)])
           (JObj [("spe", JUndefined); ("hp", JNum 31)])).
  - intros k Hk. unfold statKeys in Hk.
    repeat (apply elem_of_cons in Hk as [->|Hk]; [reflexivity|]). inversion Hk.
  - intros k Hk. unfold statKeys in Hk.
    repeat (apply elem_of_cons in Hk as [->|Hk]; [reflexivity|]). inversion Hk.
  - reflexivity.
  - unfold statKeys. repeat constructor.
Defined.

Lemma countChar_join (c : ascii) (l : list string) :
  Forall (fun s => countChar c s = 0%nat) l ->
  countChar c (join (String c "") l) = (List.length l - 1)%nat.
Proof.
  induction 1 as [|s l Hs Hl IH]; [reflexivity|].
  destruct l as [|s' l]; [cbn; exact Hs|].
  change (join (String c "") (s :: s' :: l))
    with (s ++ String c "" ++ join (String c "") (s' :: l)).
  rewrite !countChar_app, Hs, IH. cbn [countChar List.length].
  rewrite Ascii.eqb_refl. lia.
Qed.

(** X3.  With the inner delimiter [,], [dehydrateArray] writes an array of
    [n] elements, [n] at least 1, with exactly [n - 1] commas, so that
    the number of elements can be read back; the empty array is written
    as the empty text. *)
Theorem dehydrateArray_commas (l : list JsValue) :
  exists s, dehydrateArray (JArr l) "," = Some s
            /\ countChar "," s = (List.length l - 1)%nat
            /\ (l = [] -> s = "").
Proof.
  eexists. split; [reflexivity|]. split.
  - rewrite (countChar_join "," (map dehydrateValue l)).
    + rewrite length_map. reflexivity.
    + apply Forall_forall. intros s Hs.
      apply list_elem_of_In, in_map_iff in Hs as (v & <- & _).
      apply countChar_dehydrateValue_delimiter. reflexivity.
  - intros ->. reflexivity.
Qed.

Lemma dehydrateArray_commas_witness :
  exists s, dehydrateArray (JArr []) "," = Some s /\ s = "".
Proof.
  destruct (dehydrateArray_commas []) as (s & Hs & _ & Hempty).
  exists s. split; [exact Hs|]. apply Hempty. reflexivity.
Defined.

(** X4.  [dehydratePlayerSide] leaves out an entry whose value is falsy,
    the entry [conditions] and an entry with an empty key: the text is the
    same with or without it. *)
Theorem dehydratePlayerSide_omits (before after : list (string * JsValue))
    (k : string) (v : JsValue) (delimiter : string) :
  truthy v = false \/ k = "conditions" \/ k = "" ->
  dehydratePlayerSide (JObj (before ++ (k, v) :: after)) delimiter
  = dehydratePlayerSide (JObj (before ++ after)) delimiter.
Proof.
  intros Hdrop. unfold dehydratePlayerSide.
  cbn [orEmptyObject truthy entries].
  rewrite !List.filter_app. cbn [List.filter fst snd].
  replace (negb (k =? "") && negb (k =? "conditions") && truthy v) with false;
    [reflexivity|].
  destruct Hdrop as [-> | [-> | ->]]; [|reflexivity|reflexivity].
  rewrite andb_false_r. reflexivity.
Qed.

Lemma dehydratePlayerSide_omits_witness :
  dehydratePlayerSide
    (JObj ([("isSR", JBool true)] ++ ("spikes", JNum 0) :: [("isReflect", JBool true)])) "/"
  = dehydratePlayerSide
      (JObj ([("isSR", JBool true)] ++ [("isReflect", JBool true)])) "/".
Proof.
  apply (dehydratePlayerSide_omits [("isSR", JBool true)] [("isReflect", JBool true)]
           "spikes" (JNum 0) "/").
  left. reflexivity.
Defined.

End HydroMore.

Section HydroOrder.
Import Js Hydro.

Lemma leb_trans (a b c : string) :
  String.leb a b = true -> String.leb b c = true -> String.leb a c = true.
Proof.
  unfold String.leb. revert b c.
  induction a as [|x a IH]; intros [|y b] [|z c]; cbn [String.compare];
    try congruence.
  unfold Ascii.compare.
  destruct (N.compare_spec (N_of_ascii x) (N_of_ascii y)) as [Hxy|Hxy|Hxy];
    destruct (N.compare_spec (N_of_ascii y) (N_of_ascii z)) as [Hyz|Hyz|Hyz];
    destruct (N.compare_spec (N_of_ascii x) (N_of_ascii z)) as [Hxz|Hxz|Hxz];
    try congruence; try lia.
  apply IH.
Qed.

Local Abbreviation keysSorted := (StronglySorted (fun a b => String.leb a b = true)).

Lemma insertKey_perm (k : string) (l : list string) :
  Permutation (k :: l) (insertKey k l).
Proof.
  induction l as [|x l IH]; cbn [insertKey]; [reflexivity|].
  destruct (String.leb k x); [reflexivity|].
  rewrite perm_swap. constructor. exact IH.
Qed.

Lemma sort_perm (l : list string) : Permutation l (sort l).
Proof.
  induction l as [|x l IH]; [constructor|].
  cbn. rewrite <- insertKey_perm. constructor. exact IH.
Qed.

Lemma insertKey_sorted (k : string) (l : list string) :
  keysSorted l -> keysSorted (insertKey k l).
Proof.
  induction 1 as [|x l Hl IH Hx]; cbn [insertKey].
  - repeat constructor.
  - destruct (String.leb k x) eqn:Hk.
    + constructor; [constructor; assumption|].
      constructor; [exact Hk|].
      eapply Forall_impl; [exact Hx|]. intros y Hy. cbn in *.
      eapply leb_trans; eassumption.
    + constructor; [exact IH|].
      apply Forall_forall. intros y Hy.
      apply list_elem_of_In in Hy.
      apply (Permutation_in _ (Permutation_sym (insertKey_perm k l))) in Hy.
      destruct Hy as [<-|Hy].
      * destruct (String.leb_total x k) as [Hxk|Hxk]; [exact Hxk|congruence].
      * rewrite Forall_forall in Hx. apply Hx. apply list_elem_of_In. exact Hy.
Qed.

Lemma sort_sorted (l : list string) : keysSorted (sort l).
Proof.
  induction l as [|x l IH]; [constructor|]. cbn. apply insertKey_sorted, IH.
Qed.

Lemma sorted_perm_eq (l l' : list string) :
  keysSorted l -> keysSorted l' -> Permutation l l' -> l = l'.
Proof.
  intros Hl. revert l'.
  induction Hl as [|x l Hl IH Hx]; intros l' Hl' Hperm.
  - apply Permutation_nil in Hperm. congruence.
  - destruct Hl' as [|y l' Hl' Hy].
    + apply Permutation_sym, Permutation_nil in Hperm. discriminate.
    + assert (x = y) as <-.
      { assert (Hxin : In x (y :: l')) by (eapply Permutation_in; [exact Hperm|left; reflexivity]).
        assert (Hyin : In y (x :: l))
          by (eapply Permutation_in; [exact (Permutation_sym Hperm)|left; reflexivity]).
        destruct Hxin as [->|Hxin]; [reflexivity|].
        destruct Hyin as [->|Hyin]; [reflexivity|].
        rewrite Forall_forall in Hx, Hy.
        apply String.leb_antisym; [apply Hx|apply Hy]; apply list_elem_of_In; assumption. }
      f_equal. apply IH; [exact Hl'|].
      eapply Permutation_cons_inv. exact Hperm.
Qed.

Lemma sort_permutation (l l' : list string) :
  Permutation l l' -> sort l = sort l'.
Proof.
  intros Hperm. apply sorted_perm_eq; try apply sort_sorted.
  rewrite <- (sort_perm l), <- (sort_perm l'). exact Hperm.
Qed.

Lemma assoc_not_in (k : string) (kvs : list (string * JsValue)) :
  ~ In k (map fst kvs) -> assoc k kvs = JUndefined.
Proof.
  induction kvs as [|[k' v] kvs IH]; [reflexivity|]. cbn. intros Hnot.
  destruct (String.eqb_spec k k') as [->|Hne]; [tauto|]. apply IH. tauto.
Qed.

Lemma assoc_permutation (k : string) (kvs kvs' : list (string * JsValue)) :
  List.NoDup (map fst kvs) -> Permutation kvs kvs' -> assoc k kvs = assoc k kvs'.
Proof.
  intros Hnd Hperm. induction Hperm as [|[k1 v1] l l' Hperm IH|[k1 v1] [k2 v2] l|l l' l'' H1 IH1 H2 IH2].
  - reflexivity.
  - cbn. inversion Hnd; subst. rewrite IH by assumption. reflexivity.
  - cbn. destruct (String.eqb_spec k k1) as [->|H1]; [|reflexivity].
    destruct (String.eqb_spec k1 k2) as [->|H2]; [|reflexivity].
    cbn in Hnd. inversion Hnd as [|? ? Hnot _]; subst. exfalso. apply Hnot. left. reflexivity.
  - rewrite IH1 by exact Hnd. apply IH2.
    eapply Permutation_NoDup; [|exact Hnd]. apply Permutation_map. exact H1.
Qed.

(** X5.  [dehydratePerSide] does not depend on the order in which the
    object lists its keys: two objects with the same entries are written
    to the same text. *)
Theorem dehydratePerSide_key_order (kvs kvs' : list (string * JsValue))
    (delimiter arrayDelimiter : string) :
  List.NoDup (map fst kvs) ->
  Permutation kvs kvs' ->
  dehydratePerSide (JObj kvs) delimiter arrayDelimiter
  = dehydratePerSide (JObj kvs') delimiter arrayDelimiter.
Proof.
  intros Hnd Hperm. unfold dehydratePerSide.
  cbn [orEmptyObject truthy getProp]. unfold keys. cbn [entries].
  rewrite (sort_permutation (map fst kvs) (map fst kvs')) by (apply Permutation_map; exact Hperm).
  f_equal. apply map_ext. intros key.
  rewrite (assoc_permutation key kvs kvs' Hnd Hperm). reflexivity.
Qed.

Lemma dehydratePerSide_key_order_witness :
  dehydratePerSide (JObj [("p1", JBool true); ("auth", JBool false)]) "/" ","
  = dehydratePerSide (JObj [("auth", JBool false); ("p1", JBool true)]) "/" ",".
Proof.
  apply dehydratePerSide_key_order.
  - repeat constructor; cbn; intuition discriminate.
  - apply perm_swap.
Defined.

End HydroOrder.

(** ** Further properties of the matchup adapter *)

(** The reference helpers answer for every name, so that [ready] comes
    down to the fields of the combatant. *)
Lemma ready_showdex (format : string) (pokemon : Pokemon.t) (gen : Z) :
  Reference.detectGen format = Some gen -> (1 <= gen)%Z ->
  truthyStr (Pokemon.calcdexId pokemon) = true ->
  truthyStr (Pokemon.speciesForme pokemon) = true ->
  is_Some (Pokemon.volatiles pokemon) ->
  is_Some (if nonEmptyList (Pokemon.dirtyTypes pokemon)
           then Pokemon.dirtyTypes pokemon
           else Pokemon.types pokemon) ->
  (truthyStr (Pokemon.transformedForme pokemon) = true ->
   is_Some (Pokemon.baseStats pokemon)) ->
  ready (H := Reference.showdex) format pokemon.
Proof.
  intros Hgen Hge Hid Hspecies Hvol Htypes Hbase. unfold ready.
  split; [cbn [getGenDexForFormat Reference.showdex]; rewrite Hgen; eauto|].
  split; [exists gen; split; [exact Hgen|exact Hge]|].
  split; [exact Hid|]. split; [exact Hspecies|].
  split; [|split; [exact Hvol|split; [exact Htypes|exact Hbase]]].
  apply Forall_forall. intros a _. exists (Reference.toId a). reflexivity.
Qed.

Ltac ready_on_reference gen :=
  apply (ready_showdex _ _ gen);
  [ vm_compute; reflexivity | lia | reflexivity | reflexivity
  | eexists; reflexivity | eexists; reflexivity
  | first [ discriminate | intros _; eexists; reflexivity ] ].

Section AdapterMore.
Context `{Imports}.

(** On ready inputs: the outcome of the pseudo-toggle test and the
    entries that follow from it. *)
Lemma createSmogonPokemon_ready_toggle format pokemon moveName opponentPokemon field :
  ready format pokemon ->
  exists gen pseudoToggle o,
    detectGenFromFormat format = Some gen /\ (1 <= gen)%Z
    /\ pseudoToggleAbility (isDoubles field)
         (formatId (resolveAbility (detectLegacyGen (FmtGen gen)) pokemon))
       = Return pseudoToggle
    /\ createSmogonPokemon format (Some pokemon) moveName opponentPokemon field
       = Return (Some o)
    /\ Options.ability o
       = abilitySent (detectLegacyGen (FmtGen gen)) pseudoToggle pokemon opponentPokemon
    /\ Options.abilityOn o
       = pseudoToggle && Pokemon.abilityToggleable pokemon && Pokemon.abilityToggled pokemon
    /\ Options.nature o
       = (if detectLegacyGen (FmtGen gen) then None else Pokemon.nature pokemon)
    /\ Options.moves o = Pokemon.moves pokemon
    /\ Options.isSaltCure o
       = bool_decide (is_Some (Pokemon.volatiles pokemon ≫= fun v => v !! "saltcure")).
Proof.
  intros ([dex Hdex] & (gen & Hgen & Hge) & Hid & Hsp & Htog & [v Hv] & [tys Hty] & Htr).
  destruct (pseudoToggleAbility_returns (isDoubles field)
              (formatId (resolveAbility (detectLegacyGen (FmtGen gen)) pokemon)) Htog)
    as [pt Hpt].
  exists gen, pt.
  unfold createSmogonPokemon. rewrite Hdex, Hgen, Hid, Hsp.
  replace (gen <? 1)%Z with false by lia.
  cbn [negb orb]. rewrite Hpt. cbn [mbind completion_bind]. rewrite Hv.
  unfold resolveTypes. rewrite Hty. cbn [mbind completion_bind].
  unfold transformBaseStats.
  destruct (truthyStr (Pokemon.transformedForme pokemon)) eqn:Htf.
  - destruct (Htr eq_refl) as [bs Hbs]. rewrite Hbs. cbn [mbind completion_bind].
    eexists. repeat split; try reflexivity; assumption.
  - cbn [mbind completion_bind].
    eexists. repeat split; try reflexivity; assumption.
Qed.

(** After the map and the filter, no identity in the list of
    pseudo-toggleable abilities ends in [ofruin] outside of doubles. *)
Lemma mapM_toggleId_singles (l : list string) (ids : list (option string)) (id : string) :
  mapM (toggleId false) l = Return ids ->
  Some id ∈ ids -> endsWith id "ofruin" = false.
Proof.
  revert ids. induction l as [|a l IH]; intros ids Hrun Hin.
  - injection Hrun as <-. inversion Hin.
  - cbn [mapM] in Hrun.
    destruct (toggleId false a) as [y|] eqn:Hy; [|discriminate Hrun].
    cbn [mbind completion_bind] in Hrun.
    destruct (mapM (toggleId false) l) as [ids'|]; [|discriminate Hrun].
    cbn [mbind completion_bind mret completion_ret] in Hrun.
    injection Hrun as <-.
    apply elem_of_cons in Hin as [Hhead|Htail]; [|apply (IH ids' eq_refl Htail)].
    subst y. unfold toggleId in Hy.
    destruct (formatId (Some a)) as [ida|]; [|discriminate Hy].
    destruct (endsWith ida "ofruin") eqn:Hruin; cbn in Hy; [discriminate Hy|].
    injection Hy as ->. exact Hruin.
Qed.

Lemma pseudoToggleAbility_ruin_singles (abilityId : option string) (b : bool) :
  isRuinId abilityId = true ->
  pseudoToggleAbility false abilityId = Return b -> b = false.
Proof.
  intros Hruin. unfold pseudoToggleAbility.
  destruct (truthyStr abilityId); [|congruence].
  destruct (mapM (toggleId false) PokemonToggleAbilities) as [ids|] eqn:Hids;
    [|discriminate].
  cbn [mbind completion_bind]. intros [= <-].
  apply bool_decide_eq_false. intros Hin.
  apply list_elem_of_In, filter_In in Hin as [Hin _]. apply list_elem_of_In in Hin.
  destruct abilityId as [id|]; [|discriminate Hruin].
  cbn [isRuinId] in Hruin.
  rewrite (mapM_toggleId_singles _ _ _ Hids Hin) in Hruin. discriminate Hruin.
Qed.

Lemma includesId_not_ruin (l : list string) (id : option string) :
  Forall (fun s => endsWith s "ofruin" = false) l ->
  isRuinId id = true -> includesId l id = false.
Proof.
  intros Hl Hruin. destruct id as [s|]; [|reflexivity]. cbn in *.
  apply bool_decide_eq_false. intros Hin.
  rewrite Forall_forall in Hl. rewrite (Hl s Hin) in Hruin. discriminate.
Qed.

Lemma resolveStatus_not_sentinel (pokemon : Pokemon.t) :
  resolveStatus pokemon <> Some "???".
Proof.
  unfold resolveStatus, sameStr.
  destruct (truthyStr (Pokemon.dirtyStatus pokemon)
            && negb (bool_decide (Pokemon.dirtyStatus pokemon = Some "???"))) eqn:Hdirty.
  - apply andb_prop in Hdirty as [_ Hne]. apply negb_true_iff, bool_decide_eq_false in Hne.
    destruct (bool_decide (Pokemon.dirtyStatus pokemon = Some "ok")); [discriminate|exact Hne].
  - destruct (bool_decide (Pokemon.status pokemon = Some "???")) eqn:Hst; [discriminate|].
    apply bool_decide_eq_false in Hst. exact Hst.
Qed.

Lemma createSmogonPokemon_functional format pokemon moveName opponentPokemon field o o' :
  createSmogonPokemon format pokemon moveName opponentPokemon field = Return (Some o) ->
  createSmogonPokemon format pokemon moveName opponentPokemon field = Return (Some o') ->
  o = o'.
Proof. congruence. Qed.

End AdapterMore.

(** X6.  The adapter never sends the status sentinel [???]: where the
    resolved status would be the sentinel it sends no status; and a
    [dirtyStatus] of [ok] is sent as no status. *)
Theorem status_never_sentinel `{Imports} format pokemon moveName opponentPokemon field :
  ready format pokemon ->
  exists o,
    createSmogonPokemon format (Some pokemon) moveName opponentPokemon field
    = Return (Some o)
    /\ Options.status o <> Some "???"
    /\ (Pokemon.dirtyStatus pokemon = Some "ok" -> Options.status o = None).
Proof.
  intros Hready.
  destruct (createSmogonPokemon_ready format pokemon moveName opponentPokemon field Hready)
    as (gen & pt & o & _ & _ & Hrun & Hst & _).
  exists o. split; [exact Hrun|]. rewrite Hst. split.
  - apply resolveStatus_not_sentinel.
  - intros Hok. unfold resolveStatus. rewrite Hok. reflexivity.
Qed.

Lemma status_never_sentinel_witness :
  exists o,
    createSmogonPokemon (H := Reference.showdex)
      "gen9ou" (Some Reference.sentinelOverrides) None None None = Return (Some o)
    /\ Options.status o <> Some "???".
Proof.
  destruct (status_never_sentinel (H := Reference.showdex)
              "gen9ou" Reference.sentinelOverrides None None None)
    as (o & Hrun & Hst & _).
  - ready_on_reference 9%Z.
  - exists o. split; assumption.
Defined.

(** X7.  The adapter always sends exactly two type slots, and a type it
    sends is one of the combatant's types in use: [dirtyTypes] if that
    list is not empty, [types] otherwise. *)
Theorem types_two_slots `{Imports} format pokemon moveName opponentPokemon field :
  ready format pokemon ->
  exists o,
    createSmogonPokemon format (Some pokemon) moveName opponentPokemon field
    = Return (Some o)
    /\ List.length (Options.types o) = 2%nat
    /\ (forall t, Some t ∈ Options.types o ->
         t ∈ default [] (if nonEmptyList (Pokemon.dirtyTypes pokemon)
                         then Pokemon.dirtyTypes pokemon
                         else Pokemon.types pokemon)).
Proof.
  intros Hready.
  destruct (createSmogonPokemon_ready format pokemon moveName opponentPokemon field Hready)
    as (gen & pt & o & _ & _ & Hrun & _ & _ & _ & _ & Hty & _).
  exists o. split; [exact Hrun|].
  unfold resolveTypes in Hty.
  destruct (if nonEmptyList (Pokemon.dirtyTypes pokemon)
            then Pokemon.dirtyTypes pokemon else Pokemon.types pokemon) as [l|];
    [|discriminate Hty].
  injection Hty as <-. split.
  - rewrite length_take, length_app, length_map.
    change (length [None; None]) with 2%nat. lia.
  - intros t Hin. cbn [default from_option id].
    apply elem_of_take in Hin as (i & Hi & _).
    apply lookup_app_Some in Hi as [Hi|[_ Hi]].
    + apply list_lookup_fmap_Some in Hi as (t' & [= ->] & Hi).
      eapply list_elem_of_lookup_2. exact Hi.
    + rewrite length_map in Hi.
      destruct (i - List.length l)%nat as [|[|n]]; cbn in Hi; discriminate Hi.
Qed.

Lemma types_two_slots_witness :
  exists o,
    createSmogonPokemon (H := Reference.showdex)
      "gen9ou" (Some (Reference.greninja true)) None None None = Return (Some o)
    /\ List.length (Options.types o) = 2%nat.
Proof.
  destruct (types_two_slots (H := Reference.showdex)
              "gen9ou" (Reference.greninja true) None None None)
    as (o & Hrun & Hlen & _).
  - ready_on_reference 9%Z.
  - exists o. split; assumption.
Defined.

(** X8.  For a combatant whose resolved ability identity is
    [intrepidsword] or [download], the adapter sends the placeholder
    ability [Pressure], whatever the toggle flags and the opponent are. *)
Theorem boost_abilities_neutralised `{Imports}
    format pokemon moveName opponentPokemon field :
  ready format pokemon ->
  exists gen o,
    detectGenFromFormat format = Some gen
    /\ createSmogonPokemon format (Some pokemon) moveName opponentPokemon field
       = Return (Some o)
    /\ (includesId ["intrepidsword"; "download"]
          (formatId (resolveAbility (detectLegacyGen (FmtGen gen)) pokemon)) = true ->
        Options.ability o = Some "Pressure").
Proof.
  intros Hready.
  destruct (createSmogonPokemon_ready format pokemon moveName opponentPokemon field Hready)
    as (gen & pt & o & Hgen & _ & Hrun & _ & _ & _ & Hab & _).
  exists gen, o. repeat split; try assumption.
  intros Hid. rewrite Hab. unfold abilitySent. rewrite Hid.
  destruct (ruinCancelled _ _ _); reflexivity.
Qed.

Lemma boost_abilities_neutralised_witness :
  exists o,
    createSmogonPokemon (H := Reference.showdex) "gen9ou"
      (Some (Reference.ruinHolder "Zacian" (Some "Intrepid Sword") None))
      None None None = Return (Some o)
    /\ Options.ability o = Some "Pressure".
Proof.
  destruct (boost_abilities_neutralised (H := Reference.showdex) "gen9ou"
              (Reference.ruinHolder "Zacian" (Some "Intrepid Sword") None) None None None)
    as (gen & o & Hgen & Hrun & Hab).
  - ready_on_reference 9%Z.
  - injection Hgen as <-. exists o. split; [exact Hrun|]. apply Hab. reflexivity.
Defined.

(** X9.  Outside of doubles a Ruin ability is not pseudo-toggleable: the
    adapter sends [abilityOn] unset whatever the combatant's toggle flags
    are, and, unless the opponent cancels it, sends the ability as
    resolved. *)
Theorem ruin_singles_not_toggled `{Imports}
    format pokemon moveName opponentPokemon field :
  ready format pokemon ->
  isDoubles field = false ->
  exists gen o,
    detectGenFromFormat format = Some gen
    /\ createSmogonPokemon format (Some pokemon) moveName opponentPokemon field
       = Return (Some o)
    /\ (isRuinId (formatId (resolveAbility (detectLegacyGen (FmtGen gen)) pokemon)) = true ->
        Options.abilityOn o = false
        /\ (ruinCancelled (detectLegacyGen (FmtGen gen))
              (formatId (resolveAbility (detectLegacyGen (FmtGen gen)) pokemon))
              opponentPokemon = false ->
            Options.ability o = resolveAbility (detectLegacyGen (FmtGen gen)) pokemon)).
Proof.
  intros Hready Hsingles.
  destruct (createSmogonPokemon_ready_toggle format pokemon moveName opponentPokemon field
              Hready)
    as (gen & pt & o & Hgen & _ & Hpt & Hrun & Hab & Hon & _).
  exists gen, o. split; [exact Hgen|]. split; [exact Hrun|].
  intros Hruin. rewrite Hsingles in Hpt.
  pose proof (pseudoToggleAbility_ruin_singles _ _ Hruin Hpt) as ->.
  split; [rewrite Hon; reflexivity|].
  intros Hcancel. rewrite Hab. unfold abilitySent. rewrite Hcancel.
  rewrite !includesId_not_ruin by (try exact Hruin; repeat constructor).
  reflexivity.
Qed.

Lemma ruin_singles_not_toggled_witness :
  exists o,
    createSmogonPokemon (H := Reference.showdex) "gen9ou"
      (Some (Reference.ruinHolder "Chien-Pao" (Some "Sword of Ruin") None))
      None None None = Return (Some o)
    /\ Options.abilityOn o = false
    /\ Options.ability o = Some "Sword of Ruin".
Proof.
  destruct (ruin_singles_not_toggled (H := Reference.showdex) "gen9ou"
              (Reference.ruinHolder "Chien-Pao" (Some "Sword of Ruin") None)
              None None None)
    as (gen & o & Hgen & Hrun & Hruin).
  - ready_on_reference 9%Z.
  - reflexivity.
  - injection Hgen as <-. exists o. split; [exact Hrun|].
    destruct Hruin as [Hon Hab]; [reflexivity|].
    split; [exact Hon|]. apply Hab. reflexivity.
Defined.

(** X10.  Past its guard the adapter throws on a combatant without a
    [volatiles] object, on one that has neither a non-empty [dirtyTypes]
    nor a [types] list, and on a transformed one without [baseStats]. *)
Theorem createSmogonPokemon_throws `{Imports}
    format gen pokemon moveName opponentPokemon field :
  is_Some (getGenDexForFormat format) ->
  detectGenFromFormat format = Some gen ->
  (1 <= gen)%Z ->
  truthyStr (Pokemon.calcdexId pokemon) = true ->
  truthyStr (Pokemon.speciesForme pokemon) = true ->
  Pokemon.volatiles pokemon = None
  \/ (if nonEmptyList (Pokemon.dirtyTypes pokemon)
      then Pokemon.dirtyTypes pokemon else Pokemon.types pokemon) = None
  \/ (truthyStr (Pokemon.transformedForme pokemon) = true
      /\ Pokemon.baseStats pokemon = None) ->
  createSmogonPokemon format (Some pokemon) moveName opponentPokemon field = Throw.
Proof.
  intros [dex Hdex] Hgen Hge Hid Hsp Hcase.
  unfold createSmogonPokemon. rewrite Hdex, Hgen, Hid, Hsp.
  replace (gen <? 1)%Z with false by lia. cbn [negb orb].
  destruct (pseudoToggleAbility _ _) as [pt|]; [|reflexivity].
  cbn [mbind completion_bind].
  destruct (Pokemon.volatiles pokemon) as [v|] eqn:Hv; [|reflexivity].
  cbn [mbind completion_bind]. unfold resolveTypes.
  destruct (if nonEmptyList (Pokemon.dirtyTypes pokemon)
            then Pokemon.dirtyTypes pokemon else Pokemon.types pokemon) as [l|] eqn:Hty;
    [|reflexivity].
  cbn [mbind completion_bind]. unfold transformBaseStats.
  destruct Hcase as [Hc|[Hc|[Htf Hbs]]]; try discriminate Hc.
  rewrite Htf, Hbs. reflexivity.
Qed.

Lemma createSmogonPokemon_throws_witness :
  createSmogonPokemon (H := Reference.showdex) "gen9ou"
    (Some (withSpread
             {| Pokemon.calcdexId := Some "id-9"; Pokemon.speciesForme := Some "Mew";
                Pokemon.transformedForme := None;
                Pokemon.dirtyItem := None; Pokemon.item := None; Pokemon.prevItem := None;
                Pokemon.dirtyStatus := None; Pokemon.status := None;
                Pokemon.dirtyAbility := None; Pokemon.ability := None;
                Pokemon.abilityToggleable := false; Pokemon.abilityToggled := false;
                Pokemon.nature := None; Pokemon.moves := None;
                Pokemon.moveOverrides := None;
                Pokemon.ivs := None; Pokemon.evs := None;
                Pokemon.boosts := None; Pokemon.dirtyBoosts := None;
                Pokemon.baseStats := None; Pokemon.dirtyBaseStats := None;
                Pokemon.transformedBaseStats := None;
                Pokemon.types := Some ["Psychic"]; Pokemon.dirtyTypes := None;
                Pokemon.faintCounter := None; Pokemon.dirtyFaintCounter := None;
                Pokemon.volatiles := None |} None None))
    None None None = Throw.
Proof.
  apply (createSmogonPokemon_throws (H := Reference.showdex) "gen9ou" 9).
  - vm_compute. eauto.
  - reflexivity.
  - lia.
  - reflexivity.
  - reflexivity.
  - left. reflexivity.
Defined.

(** X11.  In a legacy generation the adapter sends no nature, and, where
    [formatId] of no ability is no identity, no ability and [abilityOn]
    unset; in generation 1 it sends no item. *)
Theorem legacy_sends_less `{Imports} format pokemon moveName opponentPokemon field :
  ready format pokemon ->
  exists gen o,
    detectGenFromFormat format = Some gen
    /\ createSmogonPokemon format (Some pokemon) moveName opponentPokemon field
       = Return (Some o)
    /\ (detectLegacyGen (FmtGen gen) = true ->
        Options.nature o = None
        /\ (formatId None = None ->
            Options.ability o = None /\ Options.abilityOn o = false))
    /\ (gen = 1%Z -> Options.item o = None).
Proof.
  intros Hready.
  destruct (createSmogonPokemon_ready_toggle format pokemon moveName opponentPokemon field
              Hready)
    as (gen & pt & o & Hgen & _ & Hpt & Hrun & Hab & Hon & Hnat & _).
  destruct (createSmogonPokemon_ready format pokemon moveName opponentPokemon field Hready)
    as (gen' & pt' & o' & Hgen' & _ & Hrun' & _ & _ & Hit & _).
  rewrite Hgen in Hgen'. injection Hgen' as <-.
  assert (o' = o) as -> by (eapply createSmogonPokemon_functional; eassumption).
  exists gen, o. split; [exact Hgen|]. split; [exact Hrun|]. split.
  - intros Hlegacy. rewrite Hlegacy in *. split; [exact Hnat|].
    intros Hnone. cbn [resolveAbility] in Hpt. rewrite Hnone in Hpt.
    cbn in Hpt. injection Hpt as <-.
    split; [|rewrite Hon; reflexivity].
    rewrite Hab. unfold abilitySent, ruinCancelled. cbn [resolveAbility].
    rewrite Hnone. reflexivity.
  - intros ->. rewrite Hit. reflexivity.
Qed.

Lemma legacy_sends_less_witness :
  exists o,
    createSmogonPokemon (H := Reference.showdex)
      "gen1ou" (Some Reference.snorlax) None None None = Return (Some o)
    /\ Options.nature o = None /\ Options.ability o = None /\ Options.item o = None.
Proof.
  destruct (legacy_sends_less (H := Reference.showdex)
              "gen1ou" Reference.snorlax None None None)
    as (gen & o & Hgen & Hrun & Hlegacy & Hitem).
  - ready_on_reference 1%Z.
  - injection Hgen as <-. exists o. split; [exact Hrun|].
    destruct Hlegacy as [Hnat Hab]; [reflexivity|].
    destruct Hab as [Hab _]; [reflexivity|].
    repeat split; try assumption. apply Hitem. reflexivity.
Defined.

(** X12.  In a legacy generation the special-defense IV the adapter sends
    is the special-attack IV.  In a generation other than 1 the
    special-defense EV and boost it sends are the combatant's own: the EV
    of its [evs] table, or the default of the generation, and the boost
    resolved for [spd]. *)
Theorem special_stats_by_generation `{Imports}
    format pokemon moveName opponentPokemon field :
  ready format pokemon ->
  exists gen o,
    detectGenFromFormat format = Some gen
    /\ createSmogonPokemon format (Some pokemon) moveName opponentPokemon field
       = Return (Some o)
    /\ (detectLegacyGen (FmtGen gen) = true ->
        Stats.spd (Options.ivs o) = Stats.spa (Options.ivs o)
        /\ Stats.spa (Options.ivs o) = default 30%Z (stat (Pokemon.ivs pokemon) "spa"))
    /\ (detectLegacyGen (FmtGen gen) = false ->
        Stats.spd (Options.ivs o) = default 31%Z (stat (Pokemon.ivs pokemon) "spd"))
    /\ (gen <> 1%Z ->
        Stats.spd (Options.evs o)
        = default (if detectLegacyGen (FmtGen gen) then 252%Z else 0%Z)
            (stat (Pokemon.evs pokemon) "spd")
        /\ Boosts.spd (Options.boosts o) = resolveBoost pokemon "spd").
Proof.
  intros Hready.
  destruct (createSmogonPokemon_ready format pokemon moveName opponentPokemon field Hready)
    as (gen & pt & o & Hgen & _ & Hrun & _ & _ & _ & _ & _ & Hivs & Hevs & Hbo & _).
  exists gen, o. split; [exact Hgen|]. split; [exact Hrun|].
  rewrite Hivs, Hevs, Hbo. split; [|split].
  - intros ->. split; reflexivity.
  - intros ->. reflexivity.
  - intros Hne. replace (gen =? 1)%Z with false by lia. split; reflexivity.
Qed.

Lemma special_stats_by_generation_witness :
  exists o,
    createSmogonPokemon (H := Reference.showdex)
      "gen9ou" (Some Reference.garganacl) None None None = Return (Some o)
    /\ Stats.spd (Options.ivs o) = 31%Z
    /\ Stats.spd (Options.evs o) = 28%Z.
Proof.
  destruct (special_stats_by_generation (H := Reference.showdex)
              "gen9ou" Reference.garganacl None None None)
    as (gen & o & Hgen & Hrun & _ & Hiv & Hev).
  - ready_on_reference 9%Z.
  - injection Hgen as <-. exists o. split; [exact Hrun|]. split.
    + rewrite Hiv by reflexivity. reflexivity.
    + destruct Hev as [Hev _]; [discriminate|]. rewrite Hev. reflexivity.
Defined.

(** X13.  The adapter sets [abilityOn] only for a combatant both of whose
    flags [abilityToggleable] and [abilityToggled] are set; and for a
    pseudo-toggleable ability that is not toggled on it sends the
    placeholder ability [Pressure] with [abilityOn] unset. *)
Theorem pseudo_toggle_off `{Imports} format pokemon moveName opponentPokemon field :
  ready format pokemon ->
  exists gen o,
    detectGenFromFormat format = Some gen
    /\ createSmogonPokemon format (Some pokemon) moveName opponentPokemon field
       = Return (Some o)
    /\ (Options.abilityOn o = true ->
        Pokemon.abilityToggleable pokemon = true /\ Pokemon.abilityToggled pokemon = true)
    /\ (pseudoToggleAbility (isDoubles field)
          (formatId (resolveAbility (detectLegacyGen (FmtGen gen)) pokemon)) = Return true ->
        Pokemon.abilityToggleable pokemon && Pokemon.abilityToggled pokemon = false ->
        Options.ability o = Some "Pressure" /\ Options.abilityOn o = false).
Proof.
  intros Hready.
  destruct (createSmogonPokemon_ready_toggle format pokemon moveName opponentPokemon field
              Hready)
    as (gen & pt & o & Hgen & _ & Hpt & Hrun & Hab & Hon & _).
  exists gen, o. split; [exact Hgen|]. split; [exact Hrun|]. split.
  - rewrite Hon. intros Htrue.
    apply andb_prop in Htrue as [Htrue Htoggled]. apply andb_prop in Htrue as [_ Hable].
    split; assumption.
  - intros Hpt' Hoff. rewrite Hpt in Hpt'. injection Hpt' as ->.
    rewrite Hon, Hab. unfold abilitySent.
    rewrite <- andb_assoc, Hoff. cbn [andb negb].
    split; [|reflexivity].
    destruct (ruinCancelled _ _ _); [reflexivity|].
    destruct (includesId ["intrepidsword"; "download"] _); [reflexivity|].
    destruct (includesId ["protean"; "libero"] _ && _); reflexivity.
Qed.

Lemma pseudo_toggle_off_witness :
  exists o,
    createSmogonPokemon (H := Reference.showdex) "gen9ou"
      (Some (Reference.ruinHolder "Dragonite" (Some "Multiscale") None))
      None None None = Return (Some o)
    /\ Options.ability o = Some "Pressure" /\ Options.abilityOn o = false.
Proof.
  destruct (pseudo_toggle_off (H := Reference.showdex) "gen9ou"
              (Reference.ruinHolder "Dragonite" (Some "Multiscale") None) None None None)
    as (gen & o & Hgen & Hrun & _ & Hoff).
  - ready_on_reference 9%Z.
  - injection Hgen as <-. exists o. split; [exact Hrun|].
    apply Hoff; vm_compute; reflexivity.
Defined.

(** ** Further properties of the preset matcher *)

(** X14.  [appliedPreset] answers [false] when the combatant or the
    preset is absent, when the format is falsy or names no generation,
    when the combatant has no [speciesForme] or the preset no [source],
    and when either of the two has no moves. *)
Theorem appliedPreset_rejects `{Imports} format pokemon preset :
  pokemon = None
  \/ preset = None
  \/ truthyFormat format = false
  \/ genOfFormat format = None
  \/ genOfFormat format = Some 0%Z
  \/ (exists p, pokemon = Some p
        /\ (truthyStr (Pokemon.speciesForme p) = false
            \/ nonEmptyList (Pokemon.moves p) = false))
  \/ (exists q, preset = Some q
        /\ (truthyStr (Preset.source q) = false
            \/ nonEmptyList (Preset.moves q) = false)) ->
  appliedPreset format pokemon preset = false.
Proof.
  intros Hcase. unfold appliedPreset.
  destruct pokemon as [p|]; [|reflexivity].
  destruct preset as [q|]; [|reflexivity].
  destruct (negb (truthyFormat format) || negb (truthyStr (Pokemon.speciesForme p))
            || negb (truthyStr (Preset.source q))) eqn:Hguard; [reflexivity|].
  apply orb_false_elim in Hguard as [Hguard Hsource].
  apply orb_false_elim in Hguard as [Hformat Hspecies].
  apply negb_false_iff in Hformat, Hspecies, Hsource.
  destruct (genOfFormat format) as [gen|] eqn:Hgen; [|reflexivity].
  destruct (gen =? 0)%Z eqn:Hzero; [reflexivity|].
  cbv zeta. unfold movesMatch.
  destruct Hcase as [Hc|[Hc|[Hc|[Hc|[Hc|[(p' & Hp & Hc)|(q' & Hq & Hc)]]]]]];
    try congruence.
  - injection Hc as ->. discriminate Hzero.
  - injection Hp as <-. destruct Hc as [Hc|Hc]; [congruence|].
    rewrite Hc. cbn [andb]. rewrite !andb_false_r. reflexivity.
  - injection Hq as <-. destruct Hc as [Hc|Hc]; [congruence|].
    rewrite Hc. rewrite !andb_false_r. reflexivity.
Qed.

Lemma appliedPreset_rejects_witness :
  appliedPreset (H := Reference.showdex) (FmtStr "gen9ou")
    (Some (withMoves Reference.garganacl (Some [])))
    (Some Reference.garganaclPreset) = false.
Proof.
  apply appliedPreset_rejects.
  do 5 right. left. eexists. split; [reflexivity|]. right. reflexivity.
Defined.

Section PresetMore.
Context `{Imports}.

Lemma bothSame_refl (a : option string) : truthyStr a = true -> bothSame a a = true.
Proof.
  intros Ha. unfold bothSame, sameStr. rewrite Ha.
  rewrite bool_decide_eq_true_2 by reflexivity. reflexivity.
Qed.

Lemma movesMatch_refl (moves : option (list string)) :
  nonEmptyList moves = true -> movesMatch moves moves = true.
Proof.
  intros Hne. unfold movesMatch. rewrite Hne. cbn [andb].
  apply forallb_forall. intros m Hin. apply bool_decide_eq_true.
  apply list_elem_of_In. exact Hin.
Qed.

End PresetMore.

(** X15.  A preset that holds the combatant's own resolved values is
    applied: the nature and the ability ([dirtyAbility] before [ability])
    outside of legacy generations, the item ([dirtyItem], else
    [prevItem], else [item]) from generation 2 on, the same non-empty
    moves, and the same IVs and EVs, each entry of which is a number. *)
Theorem appliedPreset_exact `{Imports} format gen pokemon preset :
  truthyFormat format = true ->
  genOfFormat format = Some gen ->
  gen <> 0%Z ->
  truthyStr (Pokemon.speciesForme pokemon) = true ->
  truthyStr (Preset.source preset) = true ->
  (detectLegacyGen format = false ->
   truthyStr (Pokemon.nature pokemon) = true
   /\ Preset.nature preset = Pokemon.nature pokemon
   /\ truthyStr (orElse (Pokemon.dirtyAbility pokemon) (Pokemon.ability pokemon)) = true
   /\ Preset.ability preset
      = orElse (Pokemon.dirtyAbility pokemon) (Pokemon.ability pokemon)) ->
  ((2 <= gen)%Z ->
   truthyStr (nullish (Pokemon.dirtyItem pokemon)
                (orElse (Pokemon.prevItem pokemon) (Pokemon.item pokemon))) = true
   /\ Preset.item preset
      = nullish (Pokemon.dirtyItem pokemon)
          (orElse (Pokemon.prevItem pokemon) (Pokemon.item pokemon))) ->
  nonEmptyList (Pokemon.moves pokemon) = true ->
  Preset.moves preset = Pokemon.moves pokemon ->
  Preset.ivs preset = Pokemon.ivs pokemon ->
  Preset.evs preset = Pokemon.evs pokemon ->
  (forall k v, default ∅ (Pokemon.ivs pokemon) !! k = Some v -> is_Some v) ->
  (forall k v, default ∅ (Pokemon.evs pokemon) !! k = Some v -> is_Some v) ->
  appliedPreset format (Some pokemon) (Some preset) = true.
Proof.
  intros Hformat Hgen Hne Hspecies Hsource Hmodern Hitem Hmoves Emoves Eivs Eevs Hivs Hevs.
  unfold appliedPreset. rewrite Hformat, Hspecies, Hsource, Hgen. cbn [negb orb].
  replace (gen =? 0)%Z with false by lia. cbv zeta.
  rewrite Emoves, Eivs, Eevs.
  assert (Hstat : forall (t : option (gmap string (option Z))) k n,
            default ∅ t !! k = Some (Some n) -> stat t k = Some n).
  { intros [m|] k n Hk; cbn in *; [rewrite Hk; reflexivity|].
    rewrite lookup_empty in Hk. discriminate Hk. }
  rewrite !andb_true_iff. split; [split; [split; [split; [split|]|]|]|].
  - destruct (detectLegacyGen format) eqn:Hl; [reflexivity|].
    destruct (Hmodern eq_refl) as (Hn & -> & _). apply bothSame_refl, Hn.
  - destruct (detectLegacyGen format) eqn:Hl; [reflexivity|].
    destruct (Hmodern eq_refl) as (_ & _ & Ha & ->). apply bothSame_refl, Ha.
  - destruct (gen <? 2)%Z eqn:Hg; [reflexivity|].
    destruct Hitem as [Hi ->]; [lia|]. apply bothSame_refl, Hi.
  - apply movesMatch_refl, Hmoves.
  - apply forallb_map_to_list. intros k v Hk.
    destruct (Hivs k v Hk) as [n ->]. unfold ivMatches. cbn [fst snd].
    rewrite (Hstat _ _ _ Hk). cbn [default from_option id].
    rewrite (bool_decide_eq_true_2 _ eq_refl). apply orb_true_r.
  - destruct (detectLegacyGen format); [reflexivity|]. cbn [orb].
    apply forallb_map_to_list. intros k v Hk.
    destruct (Hevs k v Hk) as [n ->]. unfold evMatches, presetEv. cbn [fst snd].
    rewrite (Hstat _ _ _ Hk). apply bool_decide_eq_true. reflexivity.
Qed.

Lemma appliedPreset_exact_witness :
  appliedPreset (H := Reference.showdex) (FmtStr "gen9ou") (Some Reference.garganacl)
    (Some {| Preset.source := Some "storage";
             Preset.ability := Some "Purifying Salt";
             Preset.item := Some "Leftovers";
             Preset.nature := Some "Impish";
             Preset.moves := Pokemon.moves Reference.garganacl;
             Preset.ivs := Pokemon.ivs Reference.garganacl;
             Preset.evs := Pokemon.evs Reference.garganacl |}) = true.
Proof.
  apply (appliedPreset_exact (H := Reference.showdex) (FmtStr "gen9ou") 9);
    try reflexivity; try discriminate.
  - intros _. repeat split; reflexivity.
  - intros _. split; reflexivity.
  - intros k v Hk. cbn in Hk. unfold Reference.table in Hk.
    repeat (apply lookup_insert_Some in Hk as [[_ <-]|[_ Hk]]; [eauto|]).
    rewrite lookup_empty in Hk. discriminate Hk.
  - intros k v Hk. cbn in Hk. unfold Reference.table in Hk.
    repeat (apply lookup_insert_Some in Hk as [[_ <-]|[_ Hk]]; [eauto|]).
    rewrite lookup_empty in Hk. discriminate Hk.
Defined.

(** X16.  In a legacy generation [appliedPreset] reads neither the
    nature, nor the abilities, nor the EVs of the combatant, and below
    generation 2 it does not read its items: two combatants that agree on
    the species, the moves and the IVs, and from generation 2 on on the
    three item fields, get the same answer. *)
Theorem appliedPreset_legacy_reads `{Imports} format pokemon pokemon' preset :
  detectLegacyGen format = true ->
  Pokemon.speciesForme pokemon' = Pokemon.speciesForme pokemon ->
  Pokemon.moves pokemon' = Pokemon.moves pokemon ->
  Pokemon.ivs pokemon' = Pokemon.ivs pokemon ->
  (forall gen, genOfFormat format = Some gen -> (2 <= gen)%Z ->
     Pokemon.dirtyItem pokemon' = Pokemon.dirtyItem pokemon
     /\ Pokemon.prevItem pokemon' = Pokemon.prevItem pokemon
     /\ Pokemon.item pokemon' = Pokemon.item pokemon) ->
  appliedPreset format (Some pokemon') (Some preset)
  = appliedPreset format (Some pokemon) (Some preset).
Proof.
  intros Hlegacy Hspecies Hmoves Hivs Hitems. unfold appliedPreset.
  rewrite Hspecies, Hmoves, Hivs, Hlegacy.
  destruct (negb (truthyFormat format) || _ || _); [reflexivity|].
  destruct (genOfFormat format) as [gen|] eqn:Hgen; [|reflexivity].
  destruct (gen =? 0)%Z; [reflexivity|]. cbn [orb].
  destruct (gen <? 2)%Z eqn:Hg; [reflexivity|].
  destruct (Hitems gen eq_refl ltac:(lia)) as (-> & -> & ->). reflexivity.
Qed.

Lemma appliedPreset_legacy_reads_witness :
  appliedPreset (H := Reference.showdex) (FmtStr "gen1ou")
    (Some (withSpread Reference.snorlax (Pokemon.ivs Reference.snorlax) None))
    (Some Reference.snorlaxPreset)
  = appliedPreset (H := Reference.showdex) (FmtStr "gen1ou")
      (Some Reference.snorlax) (Some Reference.snorlaxPreset).
Proof.
  apply appliedPreset_legacy_reads; try reflexivity.
  intros gen Hgen Hge. vm_compute in Hgen. injection Hgen as <-. lia.
Defined.

(** X17.  Only the entries of the combatant's own IV and EV tables are
    compared: for a combatant without such entries the IVs and EVs of the
    preset are not read. *)
Theorem appliedPreset_no_spread `{Imports} format pokemon preset preset' :
  default ∅ (Pokemon.ivs pokemon) = ∅ ->
  default ∅ (Pokemon.evs pokemon) = ∅ ->
  Preset.source preset' = Preset.source preset ->
  Preset.ability preset' = Preset.ability preset ->
  Preset.item preset' = Preset.item preset ->
  Preset.nature preset' = Preset.nature preset ->
  Preset.moves preset' = Preset.moves preset ->
  appliedPreset format (Some pokemon) (Some preset')
  = appliedPreset format (Some pokemon) (Some preset).
Proof.
  intros Hivs Hevs Hsource Hability Hitem Hnature Hmoves. unfold appliedPreset.
  rewrite Hivs, Hevs, Hsource, Hability, Hitem, Hnature, Hmoves.
  rewrite map_to_list_empty. reflexivity.
Qed.

Lemma appliedPreset_no_spread_witness :
  appliedPreset (H := Reference.showdex) (FmtStr "gen9ou")
    (Some (withSpread Reference.garganacl None None))
    (Some {| Preset.source := Some "smogon";
             Preset.ability := Some "Purifying Salt";
             Preset.item := Some "Leftovers";
             Preset.nature := Some "Impish";
             Preset.moves := Some ["Salt Cure"; "Recover"; "Protect"; "Stealth Rock"];
             Preset.ivs := Some (Reference.table 0 0 0 0 0 0);
             Preset.evs := None |})
  = appliedPreset (H := Reference.showdex) (FmtStr "gen9ou")
      (Some (withSpread Reference.garganacl None None))
      (Some Reference.garganaclPreset).
Proof.
  apply appliedPreset_no_spread; reflexivity.
Defined.

(** ** The move options *)

Section MovesFacts.
Import Js Calc Moves.
Context `{Calc.Imports} `{Moves.Imports}.

Lemma disjoint_sym (g g' : Group.t) : disjoint g g' -> disjoint g' g.
Proof. unfold disjoint. eauto. Qed.

(** Putting a group among groups it shares nothing with. *)
Lemma FOP_insert (g : Group.t) (l1 l2 : list Group.t) :
  ForallOrdPairs disjoint (l1 ++ l2) ->
  Forall (disjoint g) (l1 ++ l2) ->
  ForallOrdPairs disjoint (l1 ++ g :: l2).
Proof.
  induction l1 as [|a l1 IH]; cbn [app]; intros Hpairs Hg.
  - constructor; assumption.
  - inversion Hpairs as [|? ? Ha Hrest]; subst.
    inversion Hg as [|? ? Hga Hgrest]; subst.
    constructor; [|apply IH; assumption].
    apply Forall_app in Ha as [Ha1 Ha2]. apply Forall_app. split; [exact Ha1|].
    constructor; [apply disjoint_sym, Hga|exact Ha2].
Qed.

Lemma FOP_lookup (l : list Group.t) (i j : nat) (a b : Group.t) :
  ForallOrdPairs disjoint l -> (i < j)%nat ->
  l !! i = Some a -> l !! j = Some b -> disjoint a b.
Proof.
  intros Hl. revert i j. induction Hl as [|x l Hx Hl IH]; intros i j Hij Hi Hj.
  - rewrite lookup_nil in Hi. discriminate.
  - destruct j as [|j]; [lia|]. cbn in Hj. destruct i as [|i]; cbn in Hi.
    + injection Hi as <-. rewrite Forall_forall in Hx. apply Hx.
      eapply list_elem_of_lookup_2. exact Hj.
    + apply (IH i j); [lia|assumption|assumption].
Qed.

Lemma values_namedGroup find label names :
  values (namedGroup find label names) = names.
Proof.
  unfold values, namedGroup. cbn [Group.options]. rewrite map_map. cbn.
  apply map_id.
Qed.

Lemma tracked_insert (l1 l2 : list Group.t) (filterMoves pushed : list string)
    (g : Group.t) :
  tracked ((l1 ++ l2)%list, filterMoves) ->
  (forall v, v ∈ values g -> v ∉ filterMoves) ->
  (forall v, v ∈ values g <-> v ∈ pushed) ->
  tracked ((l1 ++ g :: l2)%list, pushAll filterMoves pushed).
Proof.
  intros (Hpairs & Hheld & Hcover) Hfresh Hpushed. cbn [fst snd] in *.
  split; [|split]; cbn [fst snd].
  - apply FOP_insert; [exact Hpairs|].
    eapply Forall_impl; [exact Hheld|]. intros g' Hg' v Hv Hv'.
    apply (Hfresh v Hv). apply Hg'. exact Hv'.
  - unfold pushAll. apply Forall_app in Hheld as [H1 H2].
    apply Forall_app. split; [|constructor].
    + eapply Forall_impl; [exact H1|]. intros g' Hg' v Hv.
      apply elem_of_app. left. auto.
    + intros v Hv. apply elem_of_app. right. apply Hpushed. exact Hv.
    + eapply Forall_impl; [exact H2|]. intros g' Hg' v Hv.
      apply elem_of_app. left. auto.
  - intros v Hv. unfold pushAll in Hv. apply elem_of_app in Hv as [Hv|Hv].
    + destruct (Hcover v Hv) as (g' & Hg' & Hvg'). exists g'. split; [|exact Hvg'].
      apply elem_of_app in Hg' as [Hg'|Hg']; apply elem_of_app;
        [left; exact Hg'|right; apply list_elem_of_further; exact Hg'].
    + exists g. split; [|apply Hpushed; exact Hv].
      apply elem_of_app. right. apply list_elem_of_here.
Qed.

Lemma tracked_push (st : State) (pushed : list string) (g : Group.t) :
  tracked st ->
  (forall v, v ∈ values g -> v ∉ st.2) ->
  (forall v, v ∈ values g <-> v ∈ pushed) ->
  tracked (push st.1 g, pushAll st.2 pushed).
Proof.
  intros Hst Hfresh Hpushed. unfold push.
  apply (tracked_insert st.1 [] st.2 pushed g); try assumption.
  rewrite app_nil_r. destruct st. exact Hst.
Qed.

Lemma tracked_named (st : State) find label (names : list string) :
  tracked st -> (forall v, v ∈ names -> v ∉ st.2) ->
  tracked (push st.1 (namedGroup find label names), pushAll st.2 names).
Proof.
  intros Hst Hfresh. apply tracked_push; [exact Hst| |];
    rewrite values_namedGroup; [auto|tauto].
Qed.

Lemma tracked_unshift (st : State) (pushed : list string) (g : Group.t) :
  tracked st ->
  (forall v, v ∈ values g -> v ∉ st.2) ->
  (forall v, v ∈ values g <-> v ∈ pushed) ->
  tracked (g :: st.1, pushAll st.2 pushed).
Proof.
  intros Hst Hfresh Hpushed.
  apply (tracked_insert [] st.1 st.2 pushed g);
    first [assumption | destruct st; exact Hst].
Qed.

Lemma elem_of_filter_fresh (filterMoves l : list string) (v : string) :
  v ∈ List.filter (fresh filterMoves) l -> (v ∉ filterMoves) /\ v <> "" /\ v ∈ l.
Proof.
  intros Hv. apply list_elem_of_In, filter_In in Hv as [Hin Hfresh].
  unfold fresh in Hfresh. apply andb_prop in Hfresh as [Hne Hnot].
  apply negb_true_iff in Hne, Hnot. apply bool_decide_eq_false in Hnot.
  apply String.eqb_neq in Hne. repeat split; try assumption.
  apply list_elem_of_In. exact Hin.
Qed.

Lemma elem_of_sort (l : list string) (v : string) : v ∈ sort l <-> v ∈ l.
Proof.
  rewrite !list_elem_of_In. split; apply Permutation_in;
    [apply Permutation_sym|]; apply sort_perm.
Qed.

Lemma elem_of_dedupe (seen l : list string) (v : string) :
  v ∈ dedupe seen l -> v ∈ l.
Proof.
  revert seen. induction l as [|x l IH]; intros seen Hv; cbn [dedupe] in Hv.
  - exact Hv.
  - destruct (bool_decide (x ∈ seen)).
    + apply list_elem_of_further. eapply IH. exact Hv.
    + apply elem_of_cons in Hv as [->|Hv]; [apply list_elem_of_here|].
      apply list_elem_of_further. eapply IH. exact Hv.
Qed.

Lemma learnsetFilter_spec (filterMoves l r : list string) (v : string) :
  learnsetFilter filterMoves l = Return r -> v ∈ r ->
  v ∈ l /\ v <> "" /\ (v ∉ filterMoves)
  /\ exists id, formatId v = Some id /\ String.prefix "hiddenpower" id = false.
Proof.
  revert r. induction l as [|n l IH]; intros r Hrun Hv; cbn [learnsetFilter] in Hrun.
  - injection Hrun as <-. inversion Hv.
  - destruct (negb (n =? "")) eqn:Hn.
    + destruct (formatId n) as [id|] eqn:Hid; [|discriminate Hrun].
      cbn [mbind completion_bind] in Hrun.
      destruct (learnsetFilter filterMoves l) as [rest|]; [|discriminate Hrun].
      cbn [mbind completion_bind] in Hrun.
      destruct (negb (String.prefix "hiddenpower" id)
                && negb (bool_decide (n ∈ filterMoves))) eqn:Hkeep;
        injection Hrun as <-.
      * apply elem_of_cons in Hv as [->|Hv].
        -- apply andb_prop in Hkeep as [Hhp Hnot].
           apply negb_true_iff in Hhp, Hnot, Hn. apply bool_decide_eq_false in Hnot.
           apply String.eqb_neq in Hn.
           repeat split; try assumption; [apply list_elem_of_here|eauto].
        -- destruct (IH rest eq_refl Hv) as (Hin & Hrest).
           split; [apply list_elem_of_further, Hin|exact Hrest].
      * destruct (IH rest eq_refl Hv) as (Hin & Hrest).
        split; [apply list_elem_of_further, Hin|exact Hrest].
    + cbn [mbind completion_bind] in Hrun.
      destruct (learnsetFilter filterMoves l) as [rest|]; [|discriminate Hrun].
      cbn [mbind completion_bind] in Hrun. injection Hrun as <-.
      destruct (IH rest eq_refl Hv) as (Hin & Hrest).
      split; [apply list_elem_of_further, Hin|exact Hrest].
Qed.


Lemma values_zGroup pokemon item :
  values (zGroup pokemon item) = default [] (moves pokemon).
Proof.
  unfold values, zGroup. cbn [Group.options]. rewrite map_map. cbn. apply map_id.
Qed.

Lemma values_maxGroup pokemon find ability :
  values (maxGroup pokemon find ability) = default [] (moves pokemon).
Proof.
  unfold values, maxGroup. cbn [Group.options]. rewrite map_map. cbn. apply map_id.
Qed.

Lemma values_poolGroup poolMoves :
  values (poolGroup poolMoves) = map flattenAlt poolMoves.
Proof.
  unfold values, poolGroup. cbn [Group.options]. rewrite map_map. reflexivity.
Qed.

Lemma tracked_nil : tracked ([], []).
Proof.
  split; [|split]; cbn [fst snd]; [constructor|constructor|].
  intros v Hv. inversion Hv.
Qed.

(** [Z-PWR] and [Max] exclude each other, so that the list of moves is
    offered by one group at most. *)
Lemma tracked_zmax pokemon find ability item :
  tracked (maxBlock pokemon find ability (zBlock pokemon item ([], []))).
Proof.
  unfold maxBlock, zBlock.
  destruct (useMax pokemon), (useZ pokemon), (nonEmptyList (moves pokemon));
    cbn [andb negb]; try apply tracked_nil;
    apply (tracked_push ([], [])); try apply tracked_nil;
    cbn [fst snd]; intros v; rewrite ?values_zGroup, ?values_maxGroup;
    first [tauto | intros _; apply not_elem_of_nil].
Qed.

Lemma tracked_filter (st : State) find label (l : list string) :
  tracked st ->
  tracked (push st.1 (namedGroup find label (List.filter (fresh st.2) l)),
           pushAll st.2 (List.filter (fresh st.2) l)).
Proof.
  intros Hst. apply tracked_named; [exact Hst|].
  intros v Hv. apply elem_of_filter_fresh in Hv. tauto.
Qed.

Lemma tracked_serverBlock pokemon find st :
  tracked st -> tracked (serverBlock pokemon find st).
Proof.
  intros Hst. unfold serverBlock.
  destruct (serverSourced pokemon && nonEmptyList (serverMoves pokemon));
    [apply tracked_filter|]; exact Hst.
Qed.

Lemma tracked_transformedBlock pokemon find st :
  tracked st -> tracked (transformedBlock pokemon find st).
Proof.
  intros Hst. unfold transformedBlock.
  destruct (truthyStr (transformedForme pokemon)
            && nonEmptyList (transformedMoves pokemon)); [|exact Hst].
  cbv zeta. apply tracked_unshift; [exact Hst| |]; rewrite values_namedGroup.
  - intros v Hv. apply elem_of_filter_fresh in Hv. tauto.
  - tauto.
Qed.

Lemma tracked_revealedBlock pokemon find st :
  tracked st -> tracked (revealedBlock pokemon find st).
Proof.
  intros Hst. unfold revealedBlock.
  destruct (nonEmptyList (revealedMoves pokemon));
    [apply tracked_filter|]; exact Hst.
Qed.

Section Flatten.
(** What the two helpers of [flattenAlts] are taken to do: [flattenAlts]
    maps [flattenAlt], which leaves a name as it is. *)
Hypothesis flattenAlts_map : forall l, flattenAlts l = map flattenAlt l.
Hypothesis flattenAlt_name : forall name, flattenAlt (AltName name) = name.

Lemma flatten_names (l : list string) : map flattenAlt (map AltName l) = l.
Proof.
  rewrite map_map. erewrite map_ext; [apply map_id|]. apply flattenAlt_name.
Qed.

(** The values of the pool group, whichever way it is built. *)
Lemma pool_values pokemon (st : State) (v : string) :
  let unsortedPoolMoves :=
    List.filter (fun a => truthyAlt a && negb (bool_decide (flattenAlt a ∈ st.2)))
      (default [] (altMoves pokemon)) in
  let poolMoves :=
    if existsb hasUsage (default [] (altMoves pokemon))
    then unsortedPoolMoves
    else map AltName (sort (flattenAlts unsortedPoolMoves)) in
  v ∈ map flattenAlt poolMoves <-> v ∈ map flattenAlt unsortedPoolMoves.
Proof.
  cbv zeta. destruct (existsb hasUsage (default [] (altMoves pokemon))); [tauto|].
  rewrite flatten_names, elem_of_sort, flattenAlts_map. tauto.
Qed.

Lemma tracked_poolBlock pokemon st : tracked st -> tracked (poolBlock pokemon st).
Proof.
  intros Hst. unfold poolBlock.
  destruct (nonEmptyList (altMoves pokemon)); [|exact Hst].
  cbv zeta. apply tracked_push; [exact Hst| |]; rewrite values_poolGroup.
  - intros v Hv. apply (pool_values pokemon st v) in Hv.
    apply list_elem_of_In, in_map_iff in Hv as (a & <- & Ha).
    apply filter_In in Ha as [_ Ha]. apply andb_prop in Ha as [_ Ha].
    apply negb_true_iff, bool_decide_eq_false in Ha. exact Ha.
  - intros v.
    match goal with
    | |- _ <-> v ∈ flattenAlts ?poolMoves => rewrite (flattenAlts_map poolMoves)
    end.
    tauto.
Qed.

End Flatten.

Lemma tracked_learnsetBlock find learnset st st' :
  tracked st -> learnsetBlock find learnset st = Return st' -> tracked st'.
Proof.
  intros Hst Hrun. unfold learnsetBlock in Hrun.
  destruct learnset as [|n learnset]; [injection Hrun as <-; exact Hst|].
  destruct (learnsetFilter st.2 (dedupe [] (n :: learnset))) as [filtered|] eqn:Hf;
    [|discriminate Hrun].
  cbn [mbind completion_bind] in Hrun. injection Hrun as <-.
  apply tracked_named; [exact Hst|].
  intros v Hv. apply (proj1 (elem_of_sort _ _)) in Hv.
  destruct (learnsetFilter_spec _ _ _ v Hf Hv) as (_ & _ & Hfresh & _). exact Hfresh.
Qed.

Lemma tracked_hiddenPowerBlock find gen st :
  tracked st -> tracked (hiddenPowerBlock find gen st).
Proof.
  intros Hst. unfold hiddenPowerBlock. destruct (aboveGen1 gen); [|exact Hst].
  cbv zeta. apply tracked_named; [exact Hst|].
  intros v Hv. apply (proj1 (elem_of_sort _ _)), elem_of_dedupe in Hv.
  apply list_elem_of_In, filter_In in Hv as [_ Hv].
  apply andb_prop in Hv as [_ Hv].
  apply negb_true_iff, bool_decide_eq_false in Hv. exact Hv.
Qed.

Lemma tracked_allBlock find gen showAllMoves learnset st :
  tracked st ->
  tracked (allBlock find gen showAllMoves learnset st,
           if showAllMoves || bool_decide (learnset = [])
           then pushAll st.2 (sort (List.filter (fresh st.2) (dexMoveNames gen)))
           else st.2).
Proof.
  intros Hst. unfold allBlock.
  destruct (showAllMoves || bool_decide (learnset = []));
    [|destruct st; exact Hst].
  cbv zeta. unfold spliceAt.
  set (index := default 0%nat (findIndex "Hidden Power" st.1)).
  apply (tracked_insert (take index st.1) (drop index st.1)).
  - rewrite take_drop. destruct st. exact Hst.
  - rewrite values_namedGroup. intros v Hv.
    apply (proj1 (elem_of_sort _ _)), elem_of_filter_fresh in Hv. tauto.
  - rewrite values_namedGroup. tauto.
Qed.

(** A tracked value is offered by one group, and by no other. *)
Lemma tracked_unique (gs : list Group.t) (filterMoves : list string) (v : string) :
  tracked (gs, filterMoves) -> v ∈ filterMoves ->
  exists i g, gs !! i = Some g /\ v ∈ values g
    /\ forall j g', gs !! j = Some g' -> v ∈ values g' -> j = i.
Proof.
  intros (Hpairs & _ & Hcover) Hv. cbn [fst snd] in *.
  destruct (Hcover v Hv) as (g & Hg & Hvg).
  apply list_elem_of_lookup_1 in Hg as [i Hi].
  exists i, g. split; [exact Hi|]. split; [exact Hvg|].
  intros j g' Hj Hvg'.
  destruct (Nat.lt_trichotomy j i) as [Hlt|[Heq|Hgt]]; [exfalso|exact Heq|exfalso].
  - exact (FOP_lookup gs j i g' g Hpairs Hlt Hj Hi v Hvg' Hvg).
  - exact (FOP_lookup gs i j g g' Hpairs Hgt Hi Hj v Hvg Hvg').
Qed.

Lemma dedupe_complete (seen l : list string) (v : string) :
  v ∈ l -> v ∈ seen \/ v ∈ dedupe seen l.
Proof.
  revert seen. induction l as [|x l IH]; intros seen Hv; [inversion Hv|].
  cbn [dedupe]. destruct (bool_decide (x ∈ seen)) eqn:Hx.
  - apply bool_decide_eq_true in Hx.
    apply elem_of_cons in Hv as [->|Hv]; [left; exact Hx|apply IH, Hv].
  - apply elem_of_cons in Hv as [->|Hv]; [right; apply list_elem_of_here|].
    destruct (IH (x :: seen) Hv) as [Hs|Hd].
    + apply elem_of_cons in Hs as [->|Hs]; [right; apply list_elem_of_here|left; exact Hs].
    + right. apply list_elem_of_further, Hd.
Qed.

Lemma learnsetFilter_complete (filterMoves l r : list string) (n id : string) :
  learnsetFilter filterMoves l = Return r ->
  n ∈ l -> n <> "" -> formatId n = Some id -> String.prefix "hiddenpower" id = false ->
  n ∈ filterMoves \/ n ∈ r.
Proof.
  intros Hrun Hn Hne Hid Hhp. revert r Hrun.
  induction l as [|x l IH]; intros r Hrun; [inversion Hn|].
  cbn [learnsetFilter] in Hrun.
  destruct (if negb (x =? "")
            then match formatId x with
                 | Some id0 =>
                     Return (negb (String.prefix "hiddenpower" id0)
                             && negb (bool_decide (x ∈ filterMoves)))
                 | None => Throw
                 end
            else Return false : Completion bool) as [keep|] eqn:Hkeep;
    [|discriminate Hrun].
  cbn [mbind completion_bind] in Hrun.
  destruct (learnsetFilter filterMoves l) as [rest|]; [|discriminate Hrun].
  cbn [mbind completion_bind] in Hrun. injection Hrun as <-.
  apply elem_of_cons in Hn as [->|Hn].
  - apply String.eqb_neq in Hne. rewrite Hne, Hid, Hhp in Hkeep.
    cbn [negb andb] in Hkeep. injection Hkeep as <-.
    destruct (bool_decide (x ∈ filterMoves)) eqn:Hx; cbn [negb].
    + left. apply bool_decide_eq_true in Hx. exact Hx.
    + right. apply list_elem_of_here.
  - destruct (IH Hn rest eq_refl) as [Hf|Hr]; [left; exact Hf|right].
    destruct keep; [apply list_elem_of_further|]; exact Hr.
Qed.

Lemma learnsetFilter_returns (filterMoves l : list string) :
  (forall n, n ∈ l -> n <> "" -> formatId n <> None) ->
  exists r, learnsetFilter filterMoves l = Return r.
Proof.
  induction l as [|x l IH]; intros Hl; [exists []; reflexivity|].
  destruct IH as [rest Hrest].
  { intros n Hn. apply Hl, list_elem_of_further, Hn. }
  cbn [learnsetFilter]. rewrite Hrest.
  destruct (negb (x =? "")) eqn:Hx.
  - apply negb_true_iff, String.eqb_neq in Hx.
    destruct (formatId x) as [id|] eqn:Hid;
      [|exfalso; exact (Hl x (list_elem_of_here _ _) Hx Hid)].
    cbn [mbind completion_bind]. eauto.
  - cbn [mbind completion_bind]. eauto.
Qed.

(** *** The order of the groups *)

Lemma labels_push (l : list Group.t) (g : Group.t) :
  map Group.label (push l g) = (map Group.label l ++ [Group.label g])%list.
Proof. unfold push. apply map_app. Qed.

Lemma labels_zmax pokemon find ability item :
  map Group.label (maxBlock pokemon find ability (zBlock pokemon item ([], []))).1
  = ((if useZ pokemon && negb (useMax pokemon) && nonEmptyList (moves pokemon)
      then ["Z-PWR"] else [])
     ++ (if useMax pokemon && nonEmptyList (moves pokemon) then ["Max"] else []))%list.
Proof.
  unfold maxBlock, zBlock.
  destruct (useMax pokemon), (useZ pokemon), (nonEmptyList (moves pokemon));
    reflexivity.
Qed.

Lemma labels_serverBlock pokemon find st :
  map Group.label (serverBlock pokemon find st).1
  = (map Group.label st.1
     ++ (if serverSourced pokemon && nonEmptyList (serverMoves pokemon)
         then [if truthyStr (transformedForme pokemon) then "Pre-Transform" else "Current"]
         else []))%list.
Proof.
  unfold serverBlock.
  destruct (serverSourced pokemon && nonEmptyList (serverMoves pokemon));
    cbn [fst]; [apply labels_push|symmetry; apply app_nil_r].
Qed.

Lemma labels_transformedBlock pokemon find st :
  map Group.label (transformedBlock pokemon find st).1
  = ((if truthyStr (transformedForme pokemon) && nonEmptyList (transformedMoves pokemon)
      then ["Transformed"] else [])
     ++ map Group.label st.1)%list.
Proof.
  unfold transformedBlock.
  destruct (truthyStr (transformedForme pokemon)
            && nonEmptyList (transformedMoves pokemon)); reflexivity.
Qed.

Lemma labels_revealedBlock pokemon find st :
  map Group.label (revealedBlock pokemon find st).1
  = (map Group.label st.1
     ++ (if nonEmptyList (revealedMoves pokemon) then ["Revealed"] else []))%list.
Proof.
  unfold revealedBlock.
  destruct (nonEmptyList (revealedMoves pokemon));
    cbn [fst]; [apply labels_push|symmetry; apply app_nil_r].
Qed.

Lemma labels_poolBlock pokemon st :
  map Group.label (poolBlock pokemon st).1
  = (map Group.label st.1
     ++ (if nonEmptyList (altMoves pokemon) then ["Pool"] else []))%list.
Proof.
  unfold poolBlock.
  destruct (nonEmptyList (altMoves pokemon));
    cbn [fst]; [apply labels_push|symmetry; apply app_nil_r].
Qed.

Lemma labels_learnsetBlock find learnset st st' :
  learnsetBlock find learnset st = Return st' ->
  map Group.label st'.1
  = (map Group.label st.1
     ++ (match learnset with [] => [] | _ :: _ => ["Learnset"] end))%list.
Proof.
  intros Hrun. unfold learnsetBlock in Hrun.
  destruct learnset as [|n learnset];
    [injection Hrun as <-; symmetry; apply app_nil_r|].
  destruct (learnsetFilter st.2 (dedupe [] (n :: learnset))) as [filtered|];
    [|discriminate Hrun].
  cbn [mbind completion_bind] in Hrun. injection Hrun as <-.
  cbn [fst]. apply labels_push.
Qed.

Lemma labels_hiddenPowerBlock find gen st :
  map Group.label (hiddenPowerBlock find gen st).1
  = (map Group.label st.1
     ++ (if aboveGen1 gen then ["Hidden Power"] else []))%list.
Proof.
  unfold hiddenPowerBlock.
  destruct (aboveGen1 gen); cbn [fst]; [apply labels_push|symmetry; apply app_nil_r].
Qed.

(** [findIndex] reads the labels only. *)
Lemma findIndex_absent (label : string) (l : list Group.t) :
  Forall (fun x => x <> label) (map Group.label l) -> findIndex label l = None.
Proof.
  induction l as [|g l IH]; cbn [map findIndex]; intros Hl; [reflexivity|].
  inversion Hl as [|? ? Hg Hrest]; subst.
  apply String.eqb_neq in Hg. rewrite Hg, IH by exact Hrest. reflexivity.
Qed.

Lemma findIndex_first (label : string) (l r : list Group.t) (g : Group.t) :
  Forall (fun x => x <> label) (map Group.label l) -> Group.label g = label ->
  findIndex label (l ++ g :: r) = Some (length l).
Proof.
  intros Hl Hg. induction l as [|a l IH]; cbn [app findIndex length].
  - rewrite Hg, String.eqb_refl. reflexivity.
  - inversion Hl as [|? ? Ha Hrest]; subst.
    apply String.eqb_neq in Ha. rewrite Ha, IH by exact Hrest. reflexivity.
Qed.

Lemma labels_spliceAt (index : nat) (g : Group.t) (l : list Group.t) :
  map Group.label (spliceAt index g l)
  = (take index (map Group.label l) ++ Group.label g :: drop index (map Group.label l))%list.
Proof.
  unfold spliceAt. rewrite map_app. cbn [map].
  rewrite <- fmap_take, <- fmap_drop. reflexivity.
Qed.

Lemma blockLabels_not_hidden format pokemon :
  Forall (fun x => x <> "Hidden Power") (blockLabels format pokemon).
Proof.
  unfold blockLabels.
  repeat (apply Forall_app; split);
    repeat match goal with
    | |- context [if ?b then _ else _] => destruct b
    | |- context [match ?l with [] => _ | _ :: _ => _ end] => destruct l
    end; repeat constructor; discriminate.
Qed.


(** The labels once [Hidden Power] and [All] are in. *)
Lemma labels_final find gen showAllMoves learnset st :
  Forall (fun x => x <> "Hidden Power") (map Group.label st.1) ->
  map Group.label (allBlock find gen showAllMoves learnset (hiddenPowerBlock find gen st))
  = let all :=
      if showAllMoves || bool_decide (learnset = []) then ["All"] else [] in
    if aboveGen1 gen
    then (map Group.label st.1 ++ all ++ ["Hidden Power"])%list
    else (all ++ map Group.label st.1)%list.
Proof.
  intros Hst. cbv zeta. unfold allBlock, hiddenPowerBlock.
  destruct (aboveGen1 gen); cbv zeta; cbn [fst snd].
  - destruct (showAllMoves || bool_decide (learnset = [])); [|apply labels_push].
    unfold push.
    rewrite (findIndex_first "Hidden Power" st.1 []) by (exact Hst || reflexivity).
    cbn [default from_option id]. unfold spliceAt.
    rewrite take_app_length, drop_app_length, map_app. reflexivity.
  - destruct (showAllMoves || bool_decide (learnset = [])); [|reflexivity].
    rewrite (findIndex_absent "Hidden Power" st.1) by exact Hst. reflexivity.
Qed.

(** What [buildMoveOptions] runs on a combatant with a species. *)
Lemma buildMoveOptions_run format pokemon :
  truthyStr (speciesForme pokemon) = true ->
  buildMoveOptions format (Some pokemon)
  = (let find := usageAltPercentFinder (altMoves pokemon) true in
     let gen := detectGenFromFormat format in
     st ← learnsetBlock find (learnsetOf format pokemon)
            (poolBlock pokemon
               (revealedBlock pokemon find
                  (transformedBlock pokemon find
                     (serverBlock pokemon find
                        (maxBlock pokemon find
                           (nullish (dirtyAbility pokemon) (ability pokemon))
                           (zBlock pokemon
                              (nullish (dirtyItem pokemon) (item pokemon))
                              ([], [])))))));
     Return (allBlock find gen (showsAllMoves format) (learnsetOf format pokemon)
               (hiddenPowerBlock find gen st))).
Proof. intros Hs. unfold buildMoveOptions. rewrite Hs. reflexivity. Qed.

Lemma learnsetBlock_holds find learnset st st' (n id : string) :
  learnsetBlock find learnset st = Return st' ->
  n ∈ learnset -> n <> "" -> formatId n = Some id ->
  String.prefix "hiddenpower" id = false ->
  n ∈ st'.2.
Proof.
  intros Hrun Hn Hne Hid Hhp. unfold learnsetBlock in Hrun.
  destruct learnset as [|x learnset]; [inversion Hn|].
  destruct (learnsetFilter st.2 (dedupe [] (x :: learnset))) as [filtered|] eqn:Hf;
    [|discriminate Hrun].
  cbn [mbind completion_bind] in Hrun. injection Hrun as <-. cbn [snd].
  unfold pushAll. apply elem_of_app.
  destruct (dedupe_complete [] _ n Hn) as [Hnil|Hd]; [inversion Hnil|].
  destruct (learnsetFilter_complete _ _ _ n id Hf Hd Hne Hid Hhp) as [Hold|Hnew];
    [left; exact Hold|right; apply elem_of_sort; exact Hnew].
Qed.

Lemma hiddenPowerBlock_keeps find gen st (v : string) :
  v ∈ st.2 -> v ∈ (hiddenPowerBlock find gen st).2.
Proof.
  intros Hv. unfold hiddenPowerBlock. destruct (aboveGen1 gen); [|exact Hv].
  cbn [snd]. apply elem_of_app. left. exact Hv.
Qed.

(** The groups [buildMoveOptions] answers with are tracked by a list of
    moves that holds the learnset, the moves named after Hidden Power
    apart, and the dex where the group [All] is shown. *)
Lemma buildMoveOptions_tracked format pokemon gs :
  (forall l, flattenAlts l = map flattenAlt l) ->
  (forall name, flattenAlt (AltName name) = name) ->
  truthyStr (speciesForme pokemon) = true ->
  buildMoveOptions format (Some pokemon) = Return gs ->
  exists filterMoves,
    tracked (gs, filterMoves)
    /\ (forall n id, n ∈ learnsetOf format pokemon -> n <> "" ->
          formatId n = Some id -> String.prefix "hiddenpower" id = false ->
          n ∈ filterMoves)
    /\ (showsAllMoves format || bool_decide (learnsetOf format pokemon = []) = true ->
        forall v, v ∈ dexMoveNames (detectGenFromFormat format) -> v <> "" ->
          v ∈ filterMoves).
Proof.
  intros Hmap Hname Hspecies Hrun.
  rewrite (buildMoveOptions_run format pokemon Hspecies) in Hrun. cbv zeta in Hrun.
  set (find := usageAltPercentFinder (altMoves pokemon) true) in *.
  set (gen := detectGenFromFormat format) in *.
  match type of Hrun with
  | context [learnsetBlock _ _ ?chain] =>
      assert (Hchain : tracked chain)
        by (apply (tracked_poolBlock Hmap Hname), tracked_revealedBlock,
              tracked_transformedBlock, tracked_serverBlock, tracked_zmax);
      destruct (learnsetBlock find (learnsetOf format pokemon) chain) as [st|] eqn:Hls;
        [|discriminate Hrun]
  end.
  cbn [mbind completion_bind] in Hrun. injection Hrun as <-.
  pose proof (tracked_learnsetBlock _ _ _ _ Hchain Hls) as Hst.
  pose proof (tracked_allBlock find gen (showsAllMoves format)
                (learnsetOf format pokemon) _
                (tracked_hiddenPowerBlock find gen st Hst)) as Hall.
  eexists. split; [exact Hall|]. split.
  - intros n id Hn Hne Hid Hhp.
    pose proof (hiddenPowerBlock_keeps find gen st n
                  (learnsetBlock_holds _ _ _ _ n id Hls Hn Hne Hid Hhp)) as Hheld.
    destruct (showsAllMoves format || bool_decide (learnsetOf format pokemon = []));
      [apply elem_of_app; left|]; exact Hheld.
  - intros Hshow v Hv Hne. rewrite Hshow. unfold pushAll. apply elem_of_app.
    destruct (bool_decide (v ∈ (hiddenPowerBlock find gen st).2)) eqn:Hheld.
    + left. apply bool_decide_eq_true in Hheld. exact Hheld.
    + right. apply elem_of_sort, list_elem_of_In, filter_In.
      split; [apply list_elem_of_In; exact Hv|].
      unfold fresh. rewrite Hheld. apply String.eqb_neq in Hne. rewrite Hne. reflexivity.
Qed.

End MovesFacts.

(** X18.  No move is offered twice: two different groups of the answer
    of [buildMoveOptions] share no value, provided [flattenAlts] maps
    [flattenAlt] and [flattenAlt] leaves a plain name as it is. *)
Theorem buildMoveOptions_groups_disjoint `{Calc.Imports} `{Moves.Imports}
    format pokemon gs :
  (forall l, Moves.flattenAlts l = map Moves.flattenAlt l) ->
  (forall name, Moves.flattenAlt (Moves.AltName name) = name) ->
  Moves.buildMoveOptions format pokemon = Return gs ->
  forall i j gi gj, i <> j -> gs !! i = Some gi -> gs !! j = Some gj ->
    Moves.disjoint gi gj.
Proof.
  intros Hmap Hname Hrun i j gi gj Hij Hi Hj.
  assert (Hpairs : ForallOrdPairs Moves.disjoint gs).
  { destruct pokemon as [pokemon|]; [|injection Hrun as <-; constructor].
    destruct (truthyStr (Moves.speciesForme pokemon)) eqn:Hspecies.
    - destruct (buildMoveOptions_tracked format pokemon gs Hmap Hname Hspecies Hrun)
        as (filterMoves & (Hpairs & _) & _).
      exact Hpairs.
    - unfold Moves.buildMoveOptions in Hrun. rewrite Hspecies in Hrun.
      injection Hrun as <-. constructor. }
  destruct (Nat.lt_trichotomy i j) as [Hlt|[Heq|Hgt]]; [|contradiction|].
  - exact (FOP_lookup gs i j gi gj Hpairs Hlt Hi Hj).
  - apply disjoint_sym. exact (FOP_lookup gs j i gj gi Hpairs Hgt Hj Hi).
Qed.

Lemma buildMoveOptions_groups_disjoint_witness :
  exists gs,
    Moves.buildMoveOptions (H := Reference.showdex) "gen9ou" (Some MovesReference.starmie)
    = Return gs
    /\ forall i j gi gj, i <> j -> gs !! i = Some gi -> gs !! j = Some gj ->
         Moves.disjoint gi gj.
Proof.
  eexists. split; [vm_compute; reflexivity|].
  apply (buildMoveOptions_groups_disjoint (H := Reference.showdex)
           "gen9ou" (Some MovesReference.starmie));
    [reflexivity|reflexivity|vm_compute; reflexivity].
Defined.

(** X19.  On a combatant with a species, whose learnset holds only names
    [formatId] answers for, [buildMoveOptions] returns, and its groups
    come in this order: [Transformed], [Z-PWR] or [Max] (never both),
    [Pre-Transform] or [Current], [Revealed], [Pool], [Learnset], then
    [All] and [Hidden Power]; in generation 1 and in an unknown
    generation there is no [Hidden Power] and [All] comes first. *)
Theorem buildMoveOptions_group_order `{Calc.Imports} `{Moves.Imports} format pokemon :
  truthyStr (Moves.speciesForme pokemon) = true ->
  (forall n, n ∈ Moves.learnsetOf format pokemon -> n <> "" ->
     Moves.formatId n <> None) ->
  exists gs,
    Moves.buildMoveOptions format (Some pokemon) = Return gs
    /\ map Moves.Group.label gs = Moves.expectedLabels format pokemon.
Proof.
  intros Hspecies Hids.
  rewrite (buildMoveOptions_run format pokemon Hspecies). cbv zeta.
  set (find := Moves.usageAltPercentFinder (Moves.altMoves pokemon) true).
  set (gen := detectGenFromFormat format).
  match goal with
  | |- context [Moves.learnsetBlock _ _ ?chain] => set (st0 := chain)
  end.
  assert (Hls : exists st,
             Moves.learnsetBlock find (Moves.learnsetOf format pokemon) st0 = Return st).
  { unfold Moves.learnsetBlock.
    destruct (Moves.learnsetOf format pokemon) as [|x learnset] eqn:Hl; [eauto|].
    destruct (learnsetFilter_returns st0.2 (Moves.dedupe [] (x :: learnset)))
      as [filtered ->]; [|cbn [mbind completion_bind]; eauto].
    intros n Hn. apply Hids. eapply elem_of_dedupe. exact Hn. }
  destruct Hls as [st Hls]. rewrite Hls. cbn [mbind completion_bind].
  eexists. split; [reflexivity|].
  assert (Hlabels : map Moves.Group.label st.1 = Moves.blockLabels format pokemon).
  { rewrite (labels_learnsetBlock _ _ _ _ Hls). unfold st0.
    rewrite labels_poolBlock, labels_revealedBlock, labels_transformedBlock,
      labels_serverBlock, labels_zmax.
    unfold Moves.blockLabels. rewrite <- !List.app_assoc. reflexivity. }
  rewrite labels_final
    by (rewrite Hlabels; apply blockLabels_not_hidden).
  cbv zeta. rewrite Hlabels. reflexivity.
Qed.

Lemma buildMoveOptions_group_order_witness :
  exists gs,
    Moves.buildMoveOptions (H := Reference.showdex) "gen9ou" (Some MovesReference.starmie)
    = Return gs
    /\ map Moves.Group.label gs = ["Revealed"; "Pool"; "Learnset"; "Hidden Power"].
Proof.
  destruct (buildMoveOptions_group_order (H := Reference.showdex)
              "gen9ou" MovesReference.starmie) as (gs & Hrun & Hlabels).
  - reflexivity.
  - intros n _ _. discriminate.
  - exists gs. split; [exact Hrun|]. rewrite Hlabels. vm_compute. reflexivity.
Defined.

(** X20.  Every move of the learnset whose identity does not start with
    [hiddenpower] is offered by exactly one group of the answer of
    [buildMoveOptions], under the same reading of [flattenAlts]. *)
Theorem learnset_moves_offered `{Calc.Imports} `{Moves.Imports}
    format pokemon gs (n id : string) :
  (forall l, Moves.flattenAlts l = map Moves.flattenAlt l) ->
  (forall name, Moves.flattenAlt (Moves.AltName name) = name) ->
  truthyStr (Moves.speciesForme pokemon) = true ->
  Moves.buildMoveOptions format (Some pokemon) = Return gs ->
  n ∈ Moves.learnsetOf format pokemon -> n <> "" ->
  Moves.formatId n = Some id -> String.prefix "hiddenpower" id = false ->
  exists i g, gs !! i = Some g /\ n ∈ Moves.values g
    /\ forall j g', gs !! j = Some g' -> n ∈ Moves.values g' -> j = i.
Proof.
  intros Hmap Hname Hspecies Hrun Hn Hne Hid Hhp.
  destruct (buildMoveOptions_tracked format pokemon gs Hmap Hname Hspecies Hrun)
    as (filterMoves & Htracked & Hlearnset & _).
  apply (tracked_unique gs filterMoves n Htracked).
  exact (Hlearnset n id Hn Hne Hid Hhp).
Qed.

Lemma learnset_moves_offered_witness :
  exists gs,
    Moves.buildMoveOptions (H := Reference.showdex) "gen9ou" (Some MovesReference.starmie)
    = Return gs
    /\ exists i g, gs !! i = Some g /\ "Ice Beam" ∈ Moves.values g
         /\ forall j g', gs !! j = Some g' -> "Ice Beam" ∈ Moves.values g' -> j = i.
Proof.
  eexists. split; [vm_compute; reflexivity|].
  apply (learnset_moves_offered (H := Reference.showdex)
           "gen9ou" MovesReference.starmie _ "Ice Beam" "icebeam").
  - reflexivity.
  - reflexivity.
  - reflexivity.
  - vm_compute. reflexivity.
  - vm_compute. apply list_elem_of_further, list_elem_of_here.
  - discriminate.
  - reflexivity.
  - reflexivity.
Defined.

(** X21.  Where the group [All] is shown (the format is not locked to
    legal moves, or there is no learnset), every named move of the dex
    of the generation is offered by exactly one group of the answer of
    [buildMoveOptions]. *)
Theorem dex_moves_offered `{Calc.Imports} `{Moves.Imports} format pokemon gs (v : string) :
  (forall l, Moves.flattenAlts l = map Moves.flattenAlt l) ->
  (forall name, Moves.flattenAlt (Moves.AltName name) = name) ->
  truthyStr (Moves.speciesForme pokemon) = true ->
  Moves.buildMoveOptions format (Some pokemon) = Return gs ->
  Moves.showsAllMoves format
  || bool_decide (Moves.learnsetOf format pokemon = []) = true ->
  v ∈ Moves.dexMoveNames (detectGenFromFormat format) -> v <> "" ->
  exists i g, gs !! i = Some g /\ v ∈ Moves.values g
    /\ forall j g', gs !! j = Some g' -> v ∈ Moves.values g' -> j = i.
Proof.
  intros Hmap Hname Hspecies Hrun Hshow Hv Hne.
  destruct (buildMoveOptions_tracked format pokemon gs Hmap Hname Hspecies Hrun)
    as (filterMoves & Htracked & _ & Hdex).
  apply (tracked_unique gs filterMoves v Htracked).
  exact (Hdex Hshow v Hv Hne).
Qed.

Lemma dex_moves_offered_witness :
  exists gs,
    Moves.buildMoveOptions (H := Reference.showdex)
      "gen9randombattle" (Some MovesReference.starmie) = Return gs
    /\ exists i g, gs !! i = Some g /\ "Tackle" ∈ Moves.values g
         /\ forall j g', gs !! j = Some g' -> "Tackle" ∈ Moves.values g' -> j = i.
Proof.
  eexists. split; [vm_compute; reflexivity|].
  apply (dex_moves_offered (H := Reference.showdex)
           "gen9randombattle" MovesReference.starmie _ "Tackle").
  - reflexivity.
  - reflexivity.
  - reflexivity.
  - vm_compute. reflexivity.
  - vm_compute. reflexivity.
  - vm_compute. do 4 apply list_elem_of_further. apply list_elem_of_here.
  - discriminate.
Defined.
